(** * Queueing, caching and persistence core of the rental bot

    A shallow embedding of [performance_optimizer.py] and of the queue
    part of [async_bot_handler.py].

    Conventions.
    - Python objects that are mutated and shared (dict documents) live in
      an object heap and are passed around by reference.
    - Library calls whose behaviour the code relies on (cachetools'
      [TTLCache], [asyncio.Queue], [json.dumps], the [os] file calls) are
      modelled next to the code that uses them.
    - Clock readings of [time.monotonic()] are integers of an arbitrary
      unit in which the TTLs are expressed; [time.time()] and the memory
      percentage of the reclaimer are rationals.
    - [await] points of one operation are not interleaved with other
      operations: every operation below is one atomic transition. *)

From Stdlib Require Import ZArith QArith Lqa String List Lia Ascii DecimalString.
From stdpp Require Import gmap strings list fin_maps.

Local Open Scope string_scope.

(* ===================================================================== *)
(** * MemoryOptimizer *)
(* ===================================================================== *)

Module MemoryOptimizer.

Local Open Scope Q_scope.

(** [self.memory_threshold], [self.gc_interval], [self.last_gc]. *)
Record t := Mk {
  memory_threshold : Q;
  gc_interval : Q;
  last_gc : Q
}.

(** [__init__], run when the clock reads [now]. *)
Definition init (now : Q) : t := Mk (8 # 10) 30 now.

(** What the reclaimer does to the outside: runs of [gc.collect()] and
    lines handed to [logger.info]. *)
Record effects := Eff {
  gc_collections : nat;
  log : list string
}.

Definition Qgt_dec (x y : Q) : {y < x} + {x <= y} := Qlt_le_dec y x.

(** [optimize_memory(force)]. [current_time] is the reading of
    [time.time()] and [percent_used] the value of
    [check_memory_usage()['percent_used']] at the call; [psutil] and
    [gc.collect()] are taken not to raise, so the [except] branch is not
    entered. *)
Definition optimize_memory (force : bool) (current_time percent_used : Q)
    (self : t) (w : effects) : bool * t * effects :=
  if (force
      || (if Qgt_dec percent_used (memory_threshold self * 100) then true else false)
      || (if Qgt_dec (current_time - last_gc self) (gc_interval self) then true else false))%bool
  then
    (true,
     Mk (memory_threshold self) (gc_interval self) current_time,
     Eff (S (gc_collections w))
         (log w ++ ["Запуск сборки мусора"; "Сборка мусора завершена"]))
  else (false, self, w).

End MemoryOptimizer.

(* ===================================================================== *)
(** * MultiCoreDataProcessor *)
(* ===================================================================== *)

Module MultiCoreDataProcessor.

Record t := Mk {
  cpu_count : nat;
  max_processes : nat;
  chunk_size : nat
}.

(** [__init__]; the argument is the value of [os.cpu_count()], which is
    [None] when the number of CPUs cannot be determined. *)
Definition init (os_cpu_count : option nat) : t :=
  let cpus := match os_cpu_count with
              | Some (S n) => S n
              | _ => 1      (* [os.cpu_count() or 1] *)
              end in
  let procs := Nat.min 8 cpus in
  Mk cpus procs (Nat.max 1 (1000 / procs)).

(** [range(0, stop, step)] for a positive [step]. *)
Definition py_range_step (stop step : nat) : list nat :=
  (λ k, k * step) <$> seq 0 ((stop + step - 1) / step).

(** The slice [l[i:j]]. *)
Definition slice {A} (l : list A) (i j : nat) : list A :=
  take (j - i) (drop i l).

(** [[data[i:i + chunk_size] for i in range(0, len(data), chunk_size)]] *)
Definition chunks {A} (chunk_size : nat) (data : list A) : list (list A) :=
  (λ i, slice data i (i + chunk_size)) <$> py_range_step (length data) chunk_size.

Section operation.
Context {A B : Type}.

(** The operation applied to an item returns a value or raises
    ([None]). *)
Variable operation_func : A → option B.

(** [_process_chunk]: the results of the chunk, or the empty list when
    the operation raised on one of its items. *)
Definition _process_chunk (chunk : list A) : list B :=
  match mapM operation_func chunk with
  | Some results => results
  | None => []
  end.

(** [process_data_parallel]. One future is submitted per chunk;
    [concurrent.futures.as_completed] hands the futures back in the order
    in which they finish, which the thread scheduler decides:
    [completion] lists the indices of the chunks in that order. The
    results are concatenated as they are handed back. [future.result()]
    cannot raise, because [_process_chunk] catches every exception. *)
Definition process_data_parallel (self : t) (completion : list nat)
    (data : list A) : list B :=
  match data with
  | [] => []
  | _ =>
    let futures := _process_chunk <$> chunks (chunk_size self) data in
    let results := (λ i, default [] (futures !! i)) <$> completion in
    concat results
  end.

(** The fallback of the [except] branch: one thread, item after item.
    [None] when the operation raises. *)
Definition process_data_fallback (data : list A) : option (list B) :=
  mapM operation_func data.

End operation.

End MultiCoreDataProcessor.

(* ===================================================================== *)
(** * asyncio.Queue *)
(* ===================================================================== *)

Module Queue.

(** The queue of the event loop: [maxsize], the deque of items and the
    counter of unfinished tasks. A [maxsize] of zero or less means no
    bound. *)
Record t (A : Type) := Mk {
  maxsize : Z;
  items : list A;
  unfinished_tasks : Z
}.
Arguments Mk {A}.
Arguments maxsize {A}.
Arguments items {A}.
Arguments unfinished_tasks {A}.

Definition create {A} (maxsize : Z) : t A := Mk maxsize [] 0.

Definition qsize {A} (q : t A) : Z := Z.of_nat (length (items q)).

Definition full {A} (q : t A) : bool :=
  if (maxsize q <=? 0)%Z then false else (maxsize q <=? qsize q)%Z.

(** Exceptions that the queue and the handlers can raise. Every one but
    [CancelledError] is caught by [except Exception]. *)
Inductive exn :=
  | QueueFull
  | ValueError
  | CancelledError
  | Exception (msg : string).

(** What an awaited call does: it completes with a value, it raises, or
    the coroutine is parked until another task changes the queue. *)
Inductive outcome (R : Type) :=
  | Done (r : R)
  | Raises (e : exn)
  | Waits.
Arguments Done {R}.
Arguments Raises {R}.
Arguments Waits {R}.

(** [put_nowait]: raises [QueueFull] on a full queue. *)
Definition put_nowait {A} (q : t A) (x : A) : outcome (t A) :=
  if full q then Raises QueueFull
  else Done (Mk (maxsize q) (items q ++ [x]) (unfinished_tasks q + 1)).

(** [put]: [while self.full(): await putter] and then [put_nowait]. On a
    full queue the caller is parked until a slot is free; [QueueFull] is
    never raised. *)
Definition put {A} (q : t A) (x : A) : outcome (t A) :=
  if full q then Waits else put_nowait q x.

(** [get]: on an empty queue the caller is parked. *)
Definition get {A} (q : t A) : outcome (A * t A) :=
  match items q with
  | [] => Waits
  | x :: rest => Done (x, Mk (maxsize q) rest (unfinished_tasks q))
  end.

(** [task_done]: raises [ValueError] when called more often than items
    were put. *)
Definition task_done {A} (q : t A) : outcome (t A) :=
  if (unfinished_tasks q <=? 0)%Z then Raises ValueError
  else Done (Mk (maxsize q) (items q) (unfinished_tasks q - 1)).

End Queue.

(* ===================================================================== *)
(** * AsyncBotHandler: the queues and their workers *)
(* ===================================================================== *)

Module AsyncBotHandler.

Import Queue.

Inductive kind := Message | Callback | File.

(** [self.stats]. *)
Record stats_t := Stats {
  messages_processed : Z;
  files_processed : Z;
  start_time : Q;
  errors : Z
}.

(** How a call of [_process_message_async], [_process_callback_async] or
    [_process_file_async] ends, as the worker that awaits it sees it. *)
Inductive handler_result :=
  | Returned
  | Raised (e : exn).

Section handler.
Context {Payload : Type}.

(** The part of the handler object that the queue code touches, the
    lines given to [logger], and the calls made to the three processing
    coroutines, oldest first. *)
Record t := Mk {
  message_queue : Queue.t Payload;
  callback_queue : Queue.t Payload;
  file_queue : Queue.t Payload;
  stats : stats_t;
  log : list string;
  handled : list (kind * Payload)
}.

(** [__init__] *)
Definition init (now : Q) : t :=
  Mk (Queue.create 1000) (Queue.create 500) (Queue.create 100)
     (Stats 0 0 now 0) [] [].

Definition queue_of (k : kind) (self : t) : Queue.t Payload :=
  match k with
  | Message => message_queue self
  | Callback => callback_queue self
  | File => file_queue self
  end.

Definition set_queue (k : kind) (q : Queue.t Payload) (self : t) : t :=
  match k with
  | Message => Mk q (callback_queue self) (file_queue self) (stats self) (log self) (handled self)
  | Callback => Mk (message_queue self) q (file_queue self) (stats self) (log self) (handled self)
  | File => Mk (message_queue self) (callback_queue self) q (stats self) (log self) (handled self)
  end.

Definition set_stats (s : stats_t) (self : t) : t :=
  Mk (message_queue self) (callback_queue self) (file_queue self) s (log self) (handled self).

Definition logger (line : string) (self : t) : t :=
  Mk (message_queue self) (callback_queue self) (file_queue self) (stats self)
     (log self ++ [line]) (handled self).

Definition record_call (k : kind) (x : Payload) (self : t) : t :=
  Mk (message_queue self) (callback_queue self) (file_queue self) (stats self)
     (log self) (handled self ++ [(k, x)]).

(** ** Enqueueing *)

Definition queue_full_warning (k : kind) : string :=
  match k with
  | Message => "Очередь сообщений переполнена"
  | Callback => "Очередь callback переполнена"
  | File => "Очередь файлов переполнена"
  end.

(** The common body of the three [add_..._to_queue] coroutines:
    [await queue.put(data); return True], with [except asyncio.QueueFull]
    logging a warning and returning [False]. *)
Definition add_to_queue (k : kind) (self : t) (data : Payload) : outcome (bool * t) :=
  match Queue.put (queue_of k self) data with
  | Done q => Done (true, set_queue k q self)
  | Raises QueueFull => Done (false, logger (queue_full_warning k) self)
  | Raises e => Raises e
  | Waits => Waits
  end.

Definition add_message_to_queue := add_to_queue Message.
Definition add_callback_to_queue := add_to_queue Callback.
Definition add_file_to_queue := add_to_queue File.

(** A caller that awaits one [add_message_to_queue] after the other while
    nothing is taken from the queue: the values returned so far, and the
    handler object once every call has returned ([None] when a call never
    returns). *)
Fixpoint enqueue_all (self : t) (ms : list Payload) : list bool * option t :=
  match ms with
  | [] => ([], Some self)
  | m :: rest =>
    match add_message_to_queue self m with
    | Done (b, self') =>
      let '(bs, final) := enqueue_all self' rest in (b :: bs, final)
    | _ => ([], None)
    end
  end.

(** ** Workers *)

(** The processing coroutines are outside this model; [process k x] says
    how the call on [x] ends. *)
Variable process : kind → Payload → handler_result.

Definition worker_error (k : kind) : string :=
  match k with
  | Message => "Ошибка в message_worker"
  | Callback => "Ошибка в callback_worker"
  | File => "Ошибка в file_worker"
  end.

(** The statement after [task_done()]: the message and the file worker
    count the item, the callback worker has no counter. *)
Definition count_processed (k : kind) (s : stats_t) : stats_t :=
  match k with
  | Message => Stats (messages_processed s + 1) (files_processed s) (start_time s) (errors s)
  | Callback => s
  | File => Stats (messages_processed s) (files_processed s + 1) (start_time s) (errors s)
  end.

Definition count_error (s : stats_t) : stats_t :=
  Stats (messages_processed s) (files_processed s) (start_time s) (errors s + 1).

(** One turn of [while True]. *)
Inductive turn :=
  | Continue (self : t)   (* the next turn starts *)
  | Break (self : t)      (* [break]: the worker ends *)
  | Parked (self : t).    (* parked in [queue.get()] *)

(** The two [except] clauses of a worker. *)
Definition on_raise (k : kind) (e : exn) (self : t) : turn :=
  match e with
  | CancelledError => Break self
  | _ => Continue (set_stats (count_error (stats self)) (logger (worker_error k) self))
  end.

(** The body of the [try] of a worker of kind [k]. *)
Definition worker_turn (k : kind) (self : t) : turn :=
  match Queue.get (queue_of k self) with
  | Waits => Parked self
  | Raises e => on_raise k e self
  | Done (data, q) =>
    let self := record_call k data (set_queue k q self) in
    match process k data with
    | Raised e => on_raise k e self
    | Returned =>
      match Queue.task_done (queue_of k self) with
      | Done q' =>
        let self := set_queue k q' self in
        Continue (set_stats (count_processed k (stats self)) self)
      | Raises e => on_raise k e self
      | Waits => Parked self
      end
    end
  end.

(** How a run of a worker stands after a number of turns. *)
Inductive run :=
  | Running (self : t)    (* more turns to go *)
  | Ended (self : t)      (* left the loop *)
  | Idle (self : t).      (* waits for the next item *)

Fixpoint worker (k : kind) (turns : nat) (self : t) : run :=
  match turns with
  | O => Running self
  | S n =>
    match worker_turn k self with
    | Continue self' => worker k n self'
    | Break self' => Ended self'
    | Parked self' => Idle self'
    end
  end.

Definition _message_worker := worker Message.
Definition _callback_worker := worker Callback.
Definition _file_worker := worker File.

(** What [self'] shows of the turns of the worker of kind [k] that led
    from [self] to it: the items taken, how many of them were counted as
    processed and how many as errors. *)
Record progress (k : kind) (self self' : t) (taken : list Payload) (oks errs : nat) : Prop := Progress {
  p_items : items (queue_of k self) = (taken ++ items (queue_of k self'))%list;
  p_unfinished :
    unfinished_tasks (queue_of k self') = (unfinished_tasks (queue_of k self) - Z.of_nat oks)%Z;
  p_others : ∀ k', k' ≠ k → queue_of k' self' = queue_of k' self;
  p_handled : handled self' = (handled self ++ (pair k <$> taken))%list;
  p_log : log self' = (log self ++ replicate errs (worker_error k))%list;
  p_errors : errors (stats self') = (errors (stats self) + Z.of_nat errs)%Z;
  p_messages :
    messages_processed (stats self')
    = (messages_processed (stats self) + match k with Message => Z.of_nat oks | _ => 0 end)%Z;
  p_files :
    files_processed (stats self')
    = (files_processed (stats self) + match k with File => Z.of_nat oks | _ => 0 end)%Z
}.

End handler.

Arguments t : clear implicits.

End AsyncBotHandler.

(* ===================================================================== *)
(** * cachetools.TTLCache *)
(* ===================================================================== *)

Module TTLCache.

Section cache.
Context {K V : Type} `{EqDecision K}.

Record link := Link {
  key : K;
  value : V;
  expires : Z
}.

(** The cache: its bound, its time to live and its items, the least
    recently used first. The stored values all have size one. An item
    set at time [t] expires at [t + ttl]; with one [ttl] for all items
    and a clock that does not run backwards the items that [expire]
    removes are those whose time has passed. *)
Record t := Mk {
  maxsize : nat;
  ttl : Z;
  links : list link
}.

Definition create (maxsize : nat) (ttl : Z) : t := Mk maxsize ttl [].

Definition find (k : K) (l : list link) : option link :=
  List.find (λ e, bool_decide (key e = k)) l.

Definition without (k : K) (l : list link) : list link :=
  List.filter (λ e, negb (bool_decide (key e = k))) l.

Definition live (now : Z) (e : link) : bool := (now <? expires e)%Z.

(** [key in cache]: the item is there and its time has not passed.
    Nothing is reordered. *)
Definition contains (now : Z) (c : t) (k : K) : bool :=
  match find k (links c) with
  | Some e => live now e
  | None => false
  end.

(** [cache[key]]: a present item becomes the most recently used one;
    [None] stands for [KeyError], raised for an absent or expired item. *)
Definition getitem (now : Z) (c : t) (k : K) : option V * t :=
  match find k (links c) with
  | Some e =>
    (if live now e then Some (value e) else None,
     Mk (maxsize c) (ttl c) (without k (links c) ++ [e]))
  | None => (None, c)
  end.

(** [expire(time)] *)
Definition expire (now : Z) (l : list link) : list link :=
  List.filter (live now) l.

(** [cache[key] = value]: expired items go first; a new key makes room
    by dropping least recently used items while the cache is full; the
    item becomes the most recently used one and its time starts anew. *)
Definition setitem (now : Z) (c : t) (k : K) (v : V) : t :=
  let l := expire now (links c) in
  let fresh_link := Link k v (now + ttl c) in
  match find k l with
  | Some _ => Mk (maxsize c) (ttl c) (without k l ++ [fresh_link])
  | None =>
    Mk (maxsize c) (ttl c) (drop (length l + 1 - maxsize c) l ++ [fresh_link])
  end.

(** The keys of the items. *)
Definition keys (l : list link) : list K := key <$> l.

(** The cache holds the value [r] for [k] until [e], as its only item
    for [k], and at most [j] items have been used more recently. *)
Definition holds (k : K) (r : V) (e : Z) (j : nat) (c : t) : Prop :=
  ∃ pre post, links c = (pre ++ Link k r e :: post)%list
              ∧ (k ∉ keys pre) ∧ (k ∉ keys post) ∧ (length post ≤ j)%nat.

End cache.

Arguments link : clear implicits.
Arguments t : clear implicits.

End TTLCache.

(* ===================================================================== *)
(** * The [async_cached] decorator *)
(* ===================================================================== *)

Module AsyncCached.

Section decorator.

(** The positional arguments of a call, the value the wrapped coroutine
    returns and the state it works on. *)
Context {Args R W : Type}.

(** [str(args) + str(sorted(kwargs.items()))] and the builtin [hash] on
    strings. *)
Variable str_args : Args → string.
Variable hash : string → Z.

(** The wrapped coroutine. *)
Variable func_name : string.
Variable func : Args → W → R * W.

(** The closure of [decorator]: its cache, the state of the wrapped
    coroutine, and the arguments of every run of the wrapped coroutine,
    oldest first. *)
Record t := Mk {
  cache : TTLCache.t (string * Z) R;
  world : W;
  runs : list Args
}.

(** [async_cached(ttl)(func)] *)
Definition decorate (ttl : Z) (w : W) : t :=
  Mk (TTLCache.create 100 ttl) w [].

(** The cache key, an f-string of [func.__name__] and of the hash,
    kept as the pair of its two parts. *)
Definition cache_key (args : Args) : string * Z :=
  (func_name, hash (str_args args)).

(** [wrapper], with a reading of the timer for each of its uses of the
    cache: the test [cache_key in cache] at [tested], the read
    [cache[cache_key]] at [read], and the store of the result of the
    awaited coroutine at [later]. The test and the read are two
    statements: an item that is live at the test and has expired at the
    read makes the read raise [KeyError], for which [None] stands; it is
    raised in the wrapper, outside the wrapped coroutine. *)
Definition wrapper_at (tested read later : Z) (args : Args) (self : t) : option R * t :=
  if TTLCache.contains tested (cache self) (cache_key args) then
    match TTLCache.getitem read (cache self) (cache_key args) with
    | (Some r, c) => (Some r, Mk c (world self) (runs self))
    | (None, c) => (None, Mk c (world self) (runs self))
    end
  else
    let '(r, w) := func args (world self) in
    (Some r, Mk (TTLCache.setitem later (cache self) (cache_key args) r) w
                (runs self ++ [args])).

(** [wrapper] when the test and the read fall on one reading [now] of
    the timer: the read then finds what the test found and the call
    returns. On a miss the wrapped coroutine is awaited and its result
    stored when the clock reads [later]. *)
Definition wrapper (now later : Z) (args : Args) (self : t) : R * t :=
  if TTLCache.contains now (cache self) (cache_key args) then
    match TTLCache.getitem now (cache self) (cache_key args) with
    | (Some r, c) => (r, Mk c (world self) (runs self))
    | (None, c) =>
      (* not reached: with the reading of the test, the read finds the
         item; the branch repeats the miss branch to keep the function
         total. *)
      let '(r, w) := func args (world self) in
      (r, Mk (TTLCache.setitem later c (cache_key args) r) w (runs self ++ [args]))
    end
  else
    let '(r, w) := func args (world self) in
    (r, Mk (TTLCache.setitem later (cache self) (cache_key args) r) w
           (runs self ++ [args])).

(** A series of calls, one after the other; each comes with its two
    clock readings. *)
Fixpoint calls (cs : list (Z * Z * Args)) (self : t) : t :=
  match cs with
  | [] => self
  | (now, later, args) :: rest => calls rest (snd (wrapper now later args self))
  end.

(** How many of the calls have a key other than [k]. *)
Definition other_keys (k : string * Z) (cs : list (Z * Z * Args)) : nat :=
  length (filter (λ c, cache_key c.2 ≠ k) cs).

End decorator.

Arguments t : clear implicits.

End AsyncCached.

(* ===================================================================== *)
(** * JSON documents and [json.dumps] *)
(* ===================================================================== *)

Module Json.

Local Open Scope nat_scope.

#[local] Unset Elimination Schemes.

(** JSON values. An object keeps its members in insertion order, as a
    Python dict does. *)
Inductive value :=
  | Null
  | Bool (b : bool)
  | Int (z : Z)
  | Str (s : string)
  | Arr (l : list value)
  | Obj (l : list (string * value)).
#[local] Set Elimination Schemes.

(** A document: the members of a top-level dict. *)
Abbreviation dict := (list (string * value)).

(** [d.get(k)] *)
Definition dict_get (k : string) (d : dict) : option value :=
  snd <$> List.find (λ kv, bool_decide (fst kv = k)) d.

(** [d[k] = v]: a present key keeps its place, a new one goes last. *)
Fixpoint dict_set (k : string) (v : value) (d : dict) : dict :=
  match d with
  | [] => [(k, v)]
  | (k', v') :: rest =>
    if bool_decide (k' = k) then (k, v) :: rest
    else (k', v') :: dict_set k v rest
  end.

(** [del d[k]] *)
Definition dict_del (k : string) (d : dict) : dict :=
  List.filter (λ kv, negb (bool_decide (fst kv = k))) d.

Definition dquote : string := String (ascii_of_nat 34) EmptyString.
Definition newline : string := String (ascii_of_nat 10) EmptyString.

Definition hex_digit (n : nat) : ascii :=
  if n <? 10 then ascii_of_nat (48 + n) else ascii_of_nat (87 + n).

(** The escape of one byte of a string ([ensure_ascii=False]: bytes of
    128 and more are written as they are). *)
Definition escape (c : ascii) : string :=
  let n := nat_of_ascii c in
  if n =? 34 then "\" ++ dquote
  else if n =? 92 then "\\"
  else if n =? 10 then "\n"
  else if n =? 13 then "\r"
  else if n =? 9 then "\t"
  else if n =? 8 then "\b"
  else if n =? 12 then "\f"
  else if n <? 32 then "\u00" ++ String (hex_digit (n / 16)) (String (hex_digit (n mod 16)) EmptyString)
  else String c EmptyString.

Definition quote (s : string) : string :=
  dquote ++ String.concat EmptyString (escape <$> list_ascii_of_string s) ++ dquote.

Definition decimal (z : Z) : string :=
  DecimalString.NilZero.string_of_int (Z.to_int z).

Definition spaces (n : nat) : string := string_of_list_ascii (replicate n " "%char).

(** The line break and indentation before an item of nesting depth
    [level]; nothing without [indent]. *)
Definition newline_indent (indent : option nat) (level : nat) : string :=
  match indent with
  | None => EmptyString
  | Some n => newline ++ spaces (n * level)
  end.

(** [json.dumps(v, ensure_ascii=False, indent=indent,
    separators=(item_separator, key_separator))] for a value at nesting
    depth [level]. *)
Fixpoint dumps (indent : option nat) (item_separator key_separator : string)
    (level : nat) (v : value) : string :=
  match v with
  | Null => "null"
  | Bool true => "true"
  | Bool false => "false"
  | Int z => decimal z
  | Str s => quote s
  | Arr [] => "[]"
  | Arr l =>
    "[" ++ newline_indent indent (S level)
    ++ String.concat (item_separator ++ newline_indent indent (S level))
         (dumps indent item_separator key_separator (S level) <$> l)
    ++ newline_indent indent level ++ "]"
  | Obj [] => "{}"
  | Obj l =>
    "{" ++ newline_indent indent (S level)
    ++ String.concat (item_separator ++ newline_indent indent (S level))
         ((λ kv, quote (fst kv) ++ key_separator
                 ++ dumps indent item_separator key_separator (S level) (snd kv)) <$> l)
    ++ newline_indent indent level ++ "}"
  end.

(** [json.dumps(data, ensure_ascii=False)], the text whose size
    [save_data] checks. *)
Definition dumps_default (d : dict) : string :=
  dumps None ", " ": " 0 (Obj d).

(** [json.dumps(data, ensure_ascii=False, indent=2,
    separators=(',', ':'))], the text that [_write_file_async] writes. *)
Definition dumps_indented (d : dict) : string :=
  dumps (Some 2) "," ":" 0 (Obj d).

(** [len(s.encode('utf-8'))]: strings are kept as their UTF-8 bytes. *)
Definition size (s : string) : Z := Z.of_nat (String.length s).

Definition is_space (c : ascii) : bool :=
  let n := nat_of_ascii c in
  (n =? 32) || ((9 <=? n) && (n <=? 13)).

(** [not content.strip()] *)
Definition blank (s : string) : bool := forallb is_space (list_ascii_of_string s).

End Json.

(* ===================================================================== *)
(** * The file system *)
(* ===================================================================== *)

Module FileSystem.

Record file := File {
  content : string;
  mtime : Z
}.

(** The regular files by path. Directories are not kept: a path is a
    key, [os.makedirs] changes nothing. *)
Abbreviation t := (gmap string file).

(** The calls that change the disk, each one atomic. *)
Inductive op :=
  | Create (path : string) (stamp : Z)                  (* [open(path, 'w')] *)
  | Append (path : string) (text : string) (stamp : Z)  (* bytes reach the file *)
  | Remove (path : string)                              (* [os.remove] *)
  | Rename (src dst : string).                          (* [os.rename] *)

Definition apply (d : t) (o : op) : t :=
  match o with
  | Create path stamp => <[path := File EmptyString stamp]> d
  | Append path text stamp =>
    match d !! path with
    | Some f => <[path := File (content f ++ text) stamp]> d
    | None => <[path := File text stamp]> d
    end
  | Remove path => delete path d
  | Rename src dst =>
    match d !! src with
    | Some f => <[dst := f]> (delete src d)
    | None => d
    end
  end.

Definition run (ops : list op) (d : t) : t := foldl apply d ops.

(** [os.path.exists] *)
Definition exists_ (path : string) (d : t) : bool :=
  match d !! path with Some _ => true | None => false end.

(** [os.path.getsize] of a file whose bytes are its text. That is so
    on every platform but Windows, where a file written in text mode has
    a carriage return before every newline and is larger than its text by
    their number. *)
Definition getsize (f : file) : Z := Json.size (content f).

(** [posixpath.join] of two parts. *)
Definition join (a b : string) : string :=
  if String.prefix "/" b then b
  else if bool_decide (a = EmptyString) then b
  else if String.prefix "/" (String.substring (String.length a - 1) 1 a) then a ++ b
  else a ++ "/" ++ b.

(** [s.replace(old, new)] for a non-empty [old]: the occurrences are
    found from the left and do not overlap. [skip] counts the bytes of a
    found occurrence still to pass over. *)
Fixpoint replace_from (old new : string) (skip : nat) (s : string) : string :=
  match s with
  | EmptyString => EmptyString
  | String c rest =>
    match skip with
    | S k => replace_from old new k rest
    | O =>
      if String.prefix old s
      then new ++ replace_from old new (String.length old - 1) rest
      else String c (replace_from old new 0 rest)
    end
  end.

Definition replace (old new s : string) : string := replace_from old new 0 s.

(** The text cut into pieces of [n] bytes, the last one shorter: what
    the buffered writer hands to the disk one piece at a time. *)
Fixpoint pieces_from (n : nat) (room : nat) (piece : string) (s : string) : list string :=
  match s with
  | EmptyString => if bool_decide (piece = EmptyString) then [] else [piece]
  | String c rest =>
    match room with
    | O => piece :: pieces_from n (n - 1) (String c EmptyString) rest
    | S r => pieces_from n r (piece ++ String c EmptyString) rest
    end
  end.

Definition pieces (n : nat) (s : string) : list string := pieces_from n n EmptyString s.

(** Pieces put one after the other. *)
Definition joined (ps : list string) : string := foldr String.append EmptyString ps.

End FileSystem.

(* ===================================================================== *)
(** * HighPerformanceFileHandler: the atomic write *)
(* ===================================================================== *)

Module HighPerformanceFileHandler.

Import FileSystem.

(** [os.name]: ['nt'] or anything else. *)
Inductive os_name := Posix | Nt.

(** What a call finds around it: the platform, the size of the pieces
    in which a write reaches the disk, and the time stamp that the disk
    gives to the files the call writes. *)
Record env := Env {
  os : os_name;
  buffer_size : nat;
  stamp : Z
}.

Definition temp_path (file_path : string) : string := file_path ++ ".tmp".

(** The disk calls of the [try] body of [_write_file_async], in order.
    First the temporary file is opened for writing, the text is written
    to it and the file is closed ([f.fsync()] does not exist on the file
    object and its [AttributeError] is passed over). The file is opened
    in text mode: [content] is the text, which is what a read in text
    mode gives back on every platform. *)
Definition fill_steps (e : env) (file_path : string) (data : Json.dict) : list op :=
  Create (temp_path file_path) (stamp e)
  :: ((λ piece, Append (temp_path file_path) piece (stamp e))
        <$> pieces (buffer_size e) (Json.dumps_indented data)).

(** Then the file is moved to [file_path], on Windows after removing an
    existing [file_path]. *)
Definition move_steps (e : env) (file_path : string) (d : FileSystem.t) : list op :=
  match os e with
  | Nt =>
    (if exists_ file_path d then [Remove file_path] else [])
    ++ [Rename (temp_path file_path) file_path]
  | Posix => [Rename (temp_path file_path) file_path]
  end.

Definition write_steps (e : env) (file_path : string) (data : Json.dict)
    (d : FileSystem.t) : list op :=
  fill_steps e file_path data ++ move_steps e file_path d.

(** [_write_file_async(file_path, data)]. [fault] names the disk call
    that raises, if one does: the calls before it have run, then the
    [except] branch removes the temporary file if it exists and the
    result is [False]. An exception raised between two disk calls (by
    [json.dumps], say) leaves the disk as a failure of the next call
    does. *)
Definition _write_file_async (e : env) (fault : option nat)
    (file_path : string) (data : Json.dict) (d : FileSystem.t) : bool * FileSystem.t :=
  let steps := write_steps e file_path data d in
  match fault with
  | Some k =>
    if (k <? length steps)%nat then
      let d' := run (take k steps) d in
      (false, if exists_ (temp_path file_path) d' then delete (temp_path file_path) d' else d')
    else (true, run steps d)
  | None => (true, run steps d)
  end.

(** The disk when the process dies after [k] disk calls of
    [_write_file_async]: no [except] branch runs. *)
Definition crashed (e : env) (k : nat)
    (file_path : string) (data : Json.dict) (d : FileSystem.t) : FileSystem.t :=
  run (take k (write_steps e file_path data d)) d.

End HighPerformanceFileHandler.

(* ===================================================================== *)
(** * AsyncDatabaseManager *)
(* ===================================================================== *)

Module AsyncDatabaseManager.

Import FileSystem HighPerformanceFileHandler.

(** A reference to a dict object. *)
Abbreviation loc := nat.

Section manager.

(** [json.loads] on the text of a file: the document, or [None] for a
    text that does not parse. The texts that parse are taken to be JSON
    objects, as the files that the manager writes are. *)
Variable json_loads : string → option Json.dict.

(** The manager with its file handler, the dict objects of the process
    and the disk. [heap !! l] is the dict that the reference [l] points
    to; objects are never freed. *)
Record t := Mk {
  data_dir : string;
  max_file_size : Z;                                      (* [file_handler.max_file_size] *)
  file_cache : TTLCache.t (string * string * Z) loc;      (* [file_handler.cache] *)
  cache : TTLCache.t string loc;
  heap : list Json.dict;
  disk : FileSystem.t
}.

(** [__init__] with the handler's default size limit of 50 MB. *)
Definition init (data_dir : string) (d : FileSystem.t) : t :=
  Mk data_dir (50 * 1024 * 1024) (TTLCache.create 1000 300) (TTLCache.create 500 60) [] d.

Definition set_heap (h : list Json.dict) (self : t) : t :=
  Mk (data_dir self) (max_file_size self) (file_cache self) (cache self) h (disk self).
Definition set_cache (c : TTLCache.t string loc) (self : t) : t :=
  Mk (data_dir self) (max_file_size self) (file_cache self) c (heap self) (disk self).
Definition set_file_cache (c : TTLCache.t (string * string * Z) loc) (self : t) : t :=
  Mk (data_dir self) (max_file_size self) c (cache self) (heap self) (disk self).
Definition set_disk (d : FileSystem.t) (self : t) : t :=
  Mk (data_dir self) (max_file_size self) (file_cache self) (cache self) (heap self) d.

(** A new dict object with the members [d]. *)
Definition alloc (d : Json.dict) (self : t) : loc * t :=
  (length (heap self), set_heap (heap self ++ [d]) self).

(** The members of the dict that [l] points to. *)
Definition deref (l : loc) (self : t) : Json.dict := default [] (heap self !! l).

(** [obj.copy()]: a new dict with the same members. *)
Definition copy (l : loc) (self : t) : loc * t := alloc (deref l self) self.

(** What callers do to a dict they hold: [obj[k] = v] and [del obj[k]]. *)
Definition setitem (l : loc) (k : string) (v : Json.value) (self : t) : t :=
  set_heap (<[l := Json.dict_set k v (deref l self)]> (heap self)) self.
Definition delitem (l : loc) (k : string) (self : t) : t :=
  set_heap (<[l := Json.dict_del k (deref l self)]> (heap self)) self.

(** A change of the top level of a dict: a key is added or bound anew,
    or a key is removed. *)
Inductive mutation :=
  | SetItem (k : string) (v : Json.value)
  | DelItem (k : string).

Definition mutate (l : loc) (m : mutation) (self : t) : t :=
  match m with
  | SetItem k v => setitem l k v self
  | DelItem k => delitem l k self
  end.

(** [_read_file_async]: the document in the file; the empty document
    for a missing file, a blank file, and a file that does not parse. *)
Definition _read_file_async (file_path : string) (self : t) : Json.dict :=
  match disk self !! file_path with
  | Some f =>
    if Json.blank (content f) then []
    else default [] (json_loads (content f))
  | None => []
  end.

(** [process_file_async(file_path, 'read')]: [None] for a file above
    the size limit; otherwise the object cached for the path and the
    time stamp of the file, or else a new object read from the file and
    put into the handler's cache. *)
Definition process_file_async (now : Z) (file_path : string) (self : t) : option loc * t :=
  let file_size := match disk self !! file_path with
                   | Some f => getsize f
                   | None => 0%Z
                   end in
  if (max_file_size self <? file_size)%Z then (None, self)
  else
    let cache_key := (file_path, "read",
                      match disk self !! file_path with
                      | Some f => mtime f
                      | None => 0%Z
                      end) in
    if TTLCache.contains now (file_cache self) cache_key then
      let '(r, c) := TTLCache.getitem now (file_cache self) cache_key in
      (r, set_file_cache c self)
    else
      let '(result, self) := alloc (_read_file_async file_path self) self in
      (Some result,
       set_file_cache (TTLCache.setitem now (file_cache self) cache_key result) self).

Definition load_key (filename : string) : string := "load:" ++ filename.

(** [load_data(filename)], called when the clock reads [now]. The
    result is a reference to the returned dict. The test
    [cache_key in self.cache] and the read [self.cache[cache_key]] fall
    on the one reading [now] of the timer, so the read finds what the
    test found; a load during which the item expires between the two is
    not among the calls that this function describes. *)
Definition load_data (now : Z) (filename : string) (self : t) : loc * t :=
  let file_path := join (data_dir self) filename in
  let cache_key := load_key filename in
  if TTLCache.contains now (cache self) cache_key then
    match TTLCache.getitem now (cache self) cache_key with
    | (Some cached, c) => copy cached (set_cache c self)
    | (None, c) =>
      (* not reached: with the reading of the test, the read finds the
         item. *)
      alloc [] (set_cache c self)
    end
  else
    let '(result, self) := process_file_async now file_path self in
    (* [... or {}]: [None] and an empty dict give way to a new [{}] *)
    let '(data, self) :=
      match result with
      | Some l => if bool_decide (deref l self = []) then alloc [] self else (l, self)
      | None => alloc [] self
      end in
    let '(copied, self) := copy data self in
    (data, set_cache (TTLCache.setitem now (cache self) cache_key copied) self).

(** [_archive_large_data(filename, data)]; [timestamp] is
    [datetime.now().strftime(...)]. The result of the write is dropped. *)
Definition _archive_large_data (e : env) (fault : option nat) (timestamp : string)
    (filename : string) (data : loc) (self : t) : t :=
  let archive_filename :=
    replace ".json" EmptyString filename ++ "_archive_" ++ timestamp ++ ".json" in
  let archive_path := join (data_dir self) "archives" in
  let archive_file := join archive_path archive_filename in
  set_disk (snd (_write_file_async e fault archive_file (deref data self) (disk self))) self.

(** [save_data(filename, data)], called when the clock reads [now].
    [fault] is handed to the write that the call makes. *)
Definition save_data (e : env) (fault : option nat) (now : Z) (timestamp : string)
    (filename : string) (data : loc) (self : t) : bool * t :=
  let file_path := join (data_dir self) filename in
  let json_str := Json.dumps_default (deref data self) in
  let data_size := Json.size json_str in
  if (max_file_size self <? data_size)%Z then
    (false, _archive_large_data e fault timestamp filename data self)
  else
    let '(success, d) := _write_file_async e fault file_path (deref data self) (disk self) in
    let self := set_disk d self in
    if success then
      let '(copied, self) := copy data self in
      (true, set_cache (TTLCache.setitem now (cache self) (load_key filename) copied) self)
    else (false, self).

End manager.

End AsyncDatabaseManager.

(* ===================================================================== *)
(** * The event loop of the handler *)
(* ===================================================================== *)

Module EventLoop.

Import Queue AsyncBotHandler.

Section loop.
Context {Payload : Type}.

(** The [try ... except Exception] that is the whole body of the
    coroutine functions [_process_message_async],
    [_process_callback_async] and [_process_file_async]: whatever the
    body raises is logged there and the call returns, except for the
    cancellation of the task, which passes through. [body k x] says how
    the statements inside the [try] end on the item [x]. *)
Definition guarded (body : kind → Payload → handler_result)
    (k : kind) (x : Payload) : handler_result :=
  match body k x with
  | Raised CancelledError => Raised CancelledError
  | _ => Returned
  end.

(** How the wrapper of [@async_cached] goes on an item (see
    [AsyncCached.wrapper_at]): the key is in the cache and is read, the
    key is not in the cache and the wrapped coroutine is awaited, or the
    key is in the cache at the test and has expired at the read. *)
Inductive cache_outcome := Hit | Miss | Expired.

(** The three processing coroutines as the repository has them, as the
    worker that awaits them sees them. [_process_callback_async] and
    [_process_file_async] are [guarded] bodies. [_process_message_async]
    is a [guarded] body under [@async_cached(ttl=300)]: on a hit the
    wrapper returns the cached result and the body does not run; on a
    miss the body runs; and the [KeyError] of an item that expires
    between the test and the read is raised in the wrapper, where no
    [try] of the coroutine catches it. [cached x] says how the wrapper
    goes on the item [x]. *)
Definition processing (body : kind → Payload → handler_result)
    (cached : Payload → cache_outcome) (k : kind) (x : Payload) : handler_result :=
  match k with
  | Message =>
    match cached x with
    | Hit => Returned
    | Miss => guarded body Message x
    | Expired => Raised (Exception "KeyError")
    end
  | Callback | File => guarded body k x
  end.

Variable process : kind → Payload → handler_result.

(** What the event loop runs next on the handler: a call of one of the
    [add_..._to_queue] coroutines that returns, or a turn of one of the
    three workers that takes an item. A turn counts as one step: the
    tasks that run while the processing coroutine is awaited put items
    behind those of a queue or take turns on the other queues. *)
Inductive step : AsyncBotHandler.t Payload → AsyncBotHandler.t Payload → Prop :=
  | step_add k x b self self' :
    add_to_queue k self x = Done (b, self') → step self self'
  | step_continue k self self' :
    worker_turn process k self = Continue self' → step self self'
  | step_break k self self' :
    worker_turn process k self = Break self' → step self self'.

(** The calls of the processing coroutine of kind [k] that returned. *)
Definition returned (k : kind) (calls : list (kind * Payload)) : nat :=
  length (List.filter
            (λ c, match c.1, k, process c.1 c.2 with
                  | Message, Message, Returned
                  | Callback, Callback, Returned
                  | File, File, Returned => true
                  | _, _, _ => false
                  end) calls).

(** The calls that raised something other than the cancellation. *)
Definition failed (calls : list (kind * Payload)) : nat :=
  length (List.filter
            (λ c, match process c.1 c.2 with
                  | Returned | Raised CancelledError => false
                  | Raised _ => true
                  end) calls).

(** What the counters and the queues of a handler show of the calls
    made so far, for a handler made at [start]: every queue has the
    bound that [__init__] gave it and is within it, no queue holds more
    items than it has unfinished tasks, and the counters agree with the
    calls. *)
Record invariant (start : Q) (self : AsyncBotHandler.t Payload) : Prop := Invariant {
  i_maxsize : ∀ k, maxsize (queue_of k self) = maxsize (queue_of k (init (Payload:=Payload) start));
  i_bounded : ∀ k, (qsize (queue_of k self) ≤ maxsize (queue_of k self))%Z;
  i_unfinished : ∀ k, (qsize (queue_of k self) ≤ unfinished_tasks (queue_of k self))%Z;
  i_messages : messages_processed (stats self) = Z.of_nat (returned Message (handled self));
  i_files : files_processed (stats self) = Z.of_nat (returned File (handled self));
  i_errors : errors (stats self) = Z.of_nat (failed (handled self))
}.

End loop.

End EventLoop.

(* ===================================================================== *)
(** * The [memory_optimized] decorator *)
(* ===================================================================== *)

Module MemoryOptimized.

Import MemoryOptimizer.

(** The module-level [memory_optimizer], [None] until its first use,
    and what the optimizer has done to the outside. *)
Record globals := Globals {
  memory_optimizer : option MemoryOptimizer.t;
  outside : effects
}.

(** [get_memory_optimizer()], called when the clock reads [now]. *)
Definition get_memory_optimizer (now : Q) (g : globals) : MemoryOptimizer.t * globals :=
  match memory_optimizer g with
  | Some o => (o, g)
  | None => (init now, Globals (Some (init now)) (outside g))
  end.

Section decorator.

(** The arguments of a call, the value that the wrapped function
    returns and the state it works on; the wrapped function returns (an
    exception would be logged and raised again, before the optimizer is
    reached). *)
Context {Args R W : Type}.
Variable func : Args → W → R * W.

(** [wrapper]: the wrapped function runs, then [optimize_memory()] is
    called with [force] left at its default. [created] is the reading of
    the clock in [get_memory_optimizer()], [current_time] and
    [percent_used] are the readings in [optimize_memory]. *)
Definition wrapper (created current_time percent_used : Q) (args : Args)
    (w : W) (g : globals) : R * W * globals :=
  let '(result, w) := func args w in
  let '(o, g) := get_memory_optimizer created g in
  let '(_, o, eff) := optimize_memory false current_time percent_used o (outside g) in
  (result, w, Globals (Some o) eff).

(** A series of calls, one after the other; each comes with its
    readings. *)
Fixpoint calls (cs : list (Q * Q * Q * Args)) (w : W) (g : globals) : W * globals :=
  match cs with
  | [] => (w, g)
  | (created, current_time, percent_used, args) :: rest =>
    let '(_, w, g) := wrapper created current_time percent_used args w g in
    calls rest w g
  end.

End decorator.

End MemoryOptimized.

(* ===================================================================== *)
(** * app.py: the two functions through which the data files are used *)
(* ===================================================================== *)

Module App.

Import FileSystem HighPerformanceFileHandler AsyncDatabaseManager.

Section app.

Variable json_loads : string → option Json.dict.

(** Whether the path has a slash. *)
Definition has_slash (p : string) : bool :=
  existsb (λ c, bool_decide (c = "/"%char)) (list_ascii_of_string p).

(** [os.path.basename]: what follows the last slash. *)
Fixpoint basename (p : string) : string :=
  match p with
  | EmptyString => EmptyString
  | String c rest =>
    if has_slash rest then basename rest
    else if bool_decide (c = "/"%char) then rest
    else p
  end.

(** [json.dump(data, f, ensure_ascii=False, indent=2)]: with an indent,
    the separators default to a comma and to a colon with a space. *)
Definition dump_text (d : Json.dict) : string :=
  Json.dumps (Some 2) "," ": " 0 (Json.Obj d).

(** The readings of the clock and of the memory in use that the
    decorator of a call takes. *)
Record readings := Readings {
  created : Q;
  current_time : Q;
  percent_used : Q
}.

(** The body of [load_json_file]: the manager loads the file of that
    base name. A load as [load_data] describes it raises nothing, so the
    [except] branch of the body, with its read of the file itself, is not
    entered. *)
Definition load_json_file_body (now : Z) (filename : string)
    (self : AsyncDatabaseManager.t) : loc * AsyncDatabaseManager.t :=
  load_data json_loads now (basename filename) self.

(** The body of [save_json_file]: the manager saves under the base
    name; when it answers [False] the document is written to [filename]
    itself, in place ([open(filename, 'w')] and [json.dump]; this write is
    taken not to fail). The manager catches what its save raises, so the
    [except] branch of the body is not entered. *)
Definition save_json_file_body (e : env) (fault : option nat) (now : Z) (timestamp : string)
    (args : string * loc) (self : AsyncDatabaseManager.t) : unit * AsyncDatabaseManager.t :=
  let '(filename, data) := args in
  let '(success, self) := save_data e fault now timestamp (basename filename) data self in
  if success then (tt, self)
  else
    (tt, set_disk (<[filename := File (dump_text (deref data self)) (stamp e)]> (disk self))
           self).

(** [load_json_file] and [save_json_file], under [@memory_optimized]. *)
Definition load_json_file (now : Z) (r : readings) (filename : string)
    (self : AsyncDatabaseManager.t) (g : MemoryOptimized.globals)
    : loc * AsyncDatabaseManager.t * MemoryOptimized.globals :=
  MemoryOptimized.wrapper (load_json_file_body now)
    (created r) (current_time r) (percent_used r) filename self g.

Definition save_json_file (e : env) (fault : option nat) (now : Z) (timestamp : string)
    (r : readings) (filename : string) (data : loc)
    (self : AsyncDatabaseManager.t) (g : MemoryOptimized.globals)
    : unit * AsyncDatabaseManager.t * MemoryOptimized.globals :=
  MemoryOptimized.wrapper (save_json_file_body e fault now timestamp)
    (created r) (current_time r) (percent_used r) (filename, data) self g.

End app.

End App.

(* ===================================================================== *)
(** * app.py: the discipline score of a client *)
(* ===================================================================== *)

Module Ratings.

Local Open Scope Z_scope.

(** How a call of [calculate_discipline_score] ends. *)
Inductive outcome :=
  | Returns (score : Z)
  | TypeError            (* a key that cannot be hashed *)
  | ZeroDivisionError.

(** [l[-window:]] for an integer [window]: a negative start counts from
    the end, any other from the start, so [-0] is the start. *)
Definition last_slice {A} (window : Z) (l : list A) : list A :=
  if 0 <? window then drop (length l - Z.to_nat window) l
  else drop (Z.to_nat (- window)) l.

(** Lists and dicts cannot be keys of a dict. *)
Definition hashable (v : Json.value) : bool :=
  match v with
  | Json.Arr _ | Json.Obj _ => false
  | _ => true
  end.

(** [discipline_rules.get(category, {}).get(key, 0)]. The rules are as
    the settings hold them: for each category the bonus, an integer, of
    each of its keys. [None] stands for the [TypeError] of a key that
    cannot be hashed; a key that is no string is not among the keys of a
    JSON object. *)
Definition rule_bonus (discipline_rules : gmap string (gmap string Z))
    (category : string) (key : Json.value) : option Z :=
  if hashable key then
    match key with
    | Json.Str s => Some (default 0 (discipline_rules !! category ≫= λ rules, rules !! s))
    | _ => Some 0
    end
  else None.

(** [transaction.get(key, fallback)] *)
Definition field (key fallback : string) (transaction : Json.dict) : Json.value :=
  default (Json.Str fallback) (Json.dict_get key transaction).

(** Whether the three keys that the loop looks up for a transaction can
    be hashed. *)
Definition keys_hashable (transaction : Json.dict) : bool :=
  hashable (field "return_timing" "on_time" transaction)
  && hashable (field "item_condition" "perfect" transaction)
  && hashable (field "rule_compliance" "no_violations" transaction).

(** The body of the loop: the score of one transaction. *)
Definition transaction_score (discipline_rules : gmap string (gmap string Z))
    (transaction : Json.dict) : option Z :=
  timing_bonus ←
    rule_bonus discipline_rules "return_timing" (field "return_timing" "on_time" transaction);
  condition_bonus ←
    rule_bonus discipline_rules "item_condition" (field "item_condition" "perfect" transaction);
  compliance_bonus ←
    rule_bonus discipline_rules "rule_compliance"
      (field "rule_compliance" "no_violations" transaction);
  Some (Z.max 0 (Z.min 100 (100 + timing_bonus + condition_bonus + compliance_bonus))).

(** [round(s / n)] for integers [s] and [n] with [n] positive: the
    nearest integer, the even one of two that are equally near. (The
    quotient is a float; for a sum of scores between 0 and 100 it lies on
    the same side of every half as the exact quotient.) *)
Definition round_div (s n : Z) : Z :=
  let q := s / n in
  let r := s mod n in
  if 2 * r <? n then q
  else if n <? 2 * r then q + 1
  else if Z.even q then q else q + 1.

(** [calculate_discipline_score(transactions)]. [discipline_rules] and
    [window] are what the function reads from the settings of the
    ratings file, which it loads when there are transactions. *)
Definition calculate_discipline_score (discipline_rules : gmap string (gmap string Z))
    (window : Z) (transactions : list Json.dict) : outcome :=
  match transactions with
  | [] => Returns 50
  | _ =>
    match mapM (transaction_score discipline_rules) (last_slice window transactions) with
    | None => TypeError
    | Some [] => ZeroDivisionError
    | Some scores => Returns (round_div (foldr Z.add 0 scores) (Z.of_nat (length scores)))
    end
  end.

End Ratings.

(* ===================================================================== *)
(** * Sample inputs *)
(* ===================================================================== *)

(** Sample arguments for the decorated [_process_message_async]: a
    message is a number, printed in decimal; the hash of a string folds
    its bytes; the coroutine counts its runs in its state. *)
Module MessageSample.

Definition str_args (message : nat) : string := Json.decimal (Z.of_nat message).

Definition hash (s : string) : Z :=
  foldl (λ h c, (h * 31 + Z.of_nat (nat_of_ascii c)) mod 2 ^ 61)%Z 7%Z
        (list_ascii_of_string s).

Definition func (message : nat) (handled : nat) : unit * nat := (tt, S handled).

Definition wrapper := AsyncCached.wrapper str_args hash "_process_message_async" func.
Definition calls := AsyncCached.calls str_args hash "_process_message_async" func.

(** [@async_cached(ttl=300)] *)
Definition decorated : AsyncCached.t nat unit nat := AsyncCached.decorate 300 0.

End MessageSample.

(** Sample documents: the two documents of the users scenario. *)
Module UsersSample.

Definition first : Json.dict :=
  [("1", Json.Obj [("name", Json.Str "A")])].

Definition second : Json.dict :=
  [("1", Json.Obj [("name", Json.Str "A")]);
   ("2", Json.Obj [("name", Json.Str "B")])].

(** A disk on which [first] has been saved as [data/users.json]. *)
Definition disk : FileSystem.t :=
  {["data/users.json" := FileSystem.File (Json.dumps_indented first) 5]}.

End UsersSample.

(** A sample manager over the sample disk: the data directory [data],
    new caches, a size limit and the dicts that the caller holds. *)
Module ManagerSample.

Definition manager (limit : Z) (objects : list Json.dict) : AsyncDatabaseManager.t :=
  AsyncDatabaseManager.Mk "data" limit
    (TTLCache.create 1000 300) (TTLCache.create 500 60) objects UsersSample.disk.

Definition posix := HighPerformanceFileHandler.Env HighPerformanceFileHandler.Posix 4096 9.

End ManagerSample.

(* ===================================================================== *)
(** * Properties *)
(* ===================================================================== *)

(** ** MemoryOptimizer *)

Section MemoryOptimizer_facts.
Import MemoryOptimizer.
Local Open Scope Q_scope.

(** The threshold that the percentage is compared with is 80 (the
    floating-point product [0.8 * 100] is [80.0] as well). *)
Lemma threshold_percent now : memory_threshold (init now) * 100 == 80.
Proof. reflexivity. Qed.

Lemma optimize_memory_skip force now pct self w :
  force = false → pct <= memory_threshold self * 100 →
  now - last_gc self <= gc_interval self →
  optimize_memory force now pct self w = (false, self, w).
Proof.
  intros -> Hp Ht. unfold optimize_memory.
  destruct (Qgt_dec pct _) as [H|_]; [lra|].
  destruct (Qgt_dec (now - _) _) as [H|_]; [lra|]. reflexivity.
Qed.

(** C7. [optimize_memory(force)] collects garbage if and only if
    [force] is set, or the percentage of memory in use exceeds the
    threshold (80 percent as [__init__] sets it), or more than the
    configured interval (30 seconds as [__init__] sets it) has passed
    since the last run; the value it returns tells whether it did;
    garbage is collected once when it did and not at all otherwise; a run
    moves the time of the last run to the time of the call and no run
    leaves it as it was. *)
Theorem optimize_memory_runs_iff (force : bool) (now pct : Q) (self : t) (w : effects) :
  let r := optimize_memory force now pct self w in
  let ran := r.1.1 in
  (ran = true
   ↔ force = true
     ∨ memory_threshold self * 100 < pct
     ∨ gc_interval self < now - last_gc self)
  ∧ gc_collections r.2 = (gc_collections w + (if ran then 1 else 0))%nat
  ∧ last_gc r.1.2 = (if ran then now else last_gc self)
  ∧ memory_threshold r.1.2 = memory_threshold self
  ∧ gc_interval r.1.2 = gc_interval self
  ∧ (∀ start, memory_threshold (init start) * 100 == 80
              ∧ gc_interval (init start) == 30).
Proof.
  intros r ran. subst ran r. unfold optimize_memory.
  assert (∀ start, memory_threshold (init start) * 100 == 80
                   ∧ gc_interval (init start) == 30) as Hinit
    by (intros; split; reflexivity).
  destruct force; simpl.
  { repeat split; auto; try lia; apply Hinit. }
  destruct (Qgt_dec pct _) as [Hp|Hp]; simpl.
  { repeat split; auto; try lia; apply Hinit. }
  destruct (Qgt_dec (now - last_gc self) _) as [Ht|Ht]; simpl.
  { repeat split; auto; try lia; apply Hinit. }
  repeat split; auto; try lia; try discriminate; try apply Hinit.
  intros [H|[H|H]]; [discriminate | lra | lra].
Qed.

End MemoryOptimizer_facts.

(** ** MultiCoreDataProcessor *)

Section MultiCoreDataProcessor_facts.
Import MultiCoreDataProcessor.
Local Open Scope nat_scope.
Context {A B : Type}.
Implicit Types (data : list A) (g : A → B).

Lemma concat_slices data (size m : nat) :
  concat ((λ i, slice data i (i + size)) <$> ((λ k, k * size) <$> seq 0 m))
  = take (m * size) data.
Proof.
  induction m as [|m IH]; [done|].
  rewrite seq_S, !fmap_app, concat_app, IH. simpl.
  unfold slice. rewrite app_nil_r.
  replace (m * size + size - m * size) with size by lia.
  rewrite take_take_drop. f_equal. lia.
Qed.

(** The chunks, put one after the other in their own order, are the
    data. *)
Lemma concat_chunks data (size : nat) :
  0 < size → concat (chunks size data) = data.
Proof.
  intros Hs. unfold chunks, py_range_step. rewrite concat_slices.
  apply take_ge.
  pose proof (Nat.div_mod_eq (length data + size - 1) size).
  pose proof (Nat.mod_upper_bound (length data + size - 1) size).
  nia.
Qed.

Lemma process_chunk_total g (chunk : list A) :
  _process_chunk (λ x, Some (g x)) chunk = g <$> chunk.
Proof.
  unfold _process_chunk.
  replace (mapM (λ x, Some (g x)) chunk) with (Some (g <$> chunk)); [done|].
  symmetry. apply mapM_Some. induction chunk; constructor; auto.
Qed.

Lemma lookup_all {X} (l : list (list X)) :
  (λ i, default [] (l !! i)) <$> seq 0 (length l) = l.
Proof.
  apply list_eq. intros i. rewrite list_lookup_fmap.
  destruct (decide (i < length l)) as [Hi|Hi].
  - rewrite lookup_seq_lt by done. simpl.
    destruct (lookup_lt_is_Some_2 l i Hi) as [x ->]. done.
  - rewrite lookup_seq_ge by lia. simpl.
    symmetry. apply lookup_ge_None. lia.
Qed.

Lemma concat_fmap_fmap g (l : list (list A)) :
  concat (fmap (M:=list) g <$> l) = g <$> concat l.
Proof.
  induction l as [|x l IH]; [done|].
  by rewrite fmap_cons, !concat_cons, fmap_app, IH.
Qed.

(** When the chunks finish in the order of their submission, the result
    is the image of the data, item by item. *)
Lemma process_data_parallel_in_order (self : t) g data :
  0 < chunk_size self →
  process_data_parallel (λ x, Some (g x)) self
    (seq 0 (length (chunks (chunk_size self) data))) data
  = g <$> data.
Proof.
  intros Hs. unfold process_data_parallel. destruct data as [|a data]; [done|].
  set (d := a :: data).
  rewrite <- (length_fmap (_process_chunk (λ x, Some (g x))) (chunks _ d)).
  rewrite lookup_all.
  rewrite (list_fmap_ext _ (fmap (M:=list) g) (chunks (chunk_size self) d))
    by (intros; apply process_chunk_total).
  by rewrite concat_fmap_fmap, concat_chunks.
Qed.

(** In whatever order the chunks finish, the result holds the images of
    the items, each once. *)
Lemma process_data_parallel_permutation (self : t) g data (completion : list nat) :
  0 < chunk_size self →
  completion ≡ₚ seq 0 (length (chunks (chunk_size self) data)) →
  process_data_parallel (λ x, Some (g x)) self completion data ≡ₚ g <$> data.
Proof.
  intros Hs Hp.
  rewrite <- (process_data_parallel_in_order self g data Hs).
  unfold process_data_parallel. destruct data as [|a data]; [done|].
  by rewrite Hp.
Qed.

(** X3. For an operation that does not raise, and in whatever order
    the chunks finish, the result has the length of the data. *)
Lemma process_data_parallel_length (self : t) g data (completion : list nat) :
  0 < chunk_size self →
  completion ≡ₚ seq 0 (length (chunks (chunk_size self) data)) →
  length (process_data_parallel (λ x, Some (g x)) self completion data) = length data.
Proof.
  intros Hs Hp.
  rewrite (Permutation_length (process_data_parallel_permutation self g data completion Hs Hp)).
  apply length_fmap.
Qed.

Lemma init_chunk_size cpus : 125 ≤ chunk_size (init cpus) ≤ 1000.
Proof.
  unfold init. cbn [chunk_size].
  assert (∀ p, 1 ≤ p ≤ 8 → 125 ≤ Nat.max 1 (1000 / p) ≤ 1000) as Hp.
  { intros p Hp.
    assert (p = 1 ∨ p = 2 ∨ p = 3 ∨ p = 4 ∨ p = 5 ∨ p = 6 ∨ p = 7 ∨ p = 8) as Hc by lia.
    destruct Hc as [->|[->|[->|[->|[->|[->|[->| ->]]]]]]]; vm_compute; lia. }
  apply Hp. destruct cpus as [[|n]|]; lia.
Qed.

(** The fallback keeps the order of the data. *)
Lemma process_data_fallback_in_order g data :
  process_data_fallback (λ x, Some (g x)) data = Some (g <$> data).
Proof.
  unfold process_data_fallback. apply mapM_Some.
  induction data; constructor; auto.
Qed.

End MultiCoreDataProcessor_facts.

(** C2, at an input on which the code departs from it. On eight CPUs the
    chunks have 125 items, so 126 items make two chunks. When the second
    chunk (one item) finishes before the first, the result starts with
    the image of the last item: it has the length of the data but not its
    order, while the single-threaded fallback returns the images in
    order. *)
Theorem process_data_parallel_reorders :
  let self := MultiCoreDataProcessor.init (Some 8) in
  let data := seq 0 126 in
  let result := MultiCoreDataProcessor.process_data_parallel Some self [1; 0] data in
  MultiCoreDataProcessor.chunk_size self = 125
  ∧ result = 125 :: seq 0 125
  ∧ length result = length data
  ∧ result ≠ data
  ∧ MultiCoreDataProcessor.process_data_fallback Some data = Some data.
Proof. vm_compute. repeat split; try reflexivity. discriminate. Qed.

(** ** Enqueueing *)

Section Enqueue_facts.
Import Queue AsyncBotHandler.
Context {Payload : Type}.
Implicit Types (self : AsyncBotHandler.t Payload) (q : Queue.t Payload).

(** [put] never raises [QueueFull]: only [put_nowait] does. *)
Lemma put_never_full q (x : Payload) : put q x ≠ Raises QueueFull.
Proof. unfold put, put_nowait. destruct (full q); discriminate. Qed.

Lemma put_full_waits q (x : Payload) : full q = true → put q x = Waits.
Proof. unfold put. by intros ->. Qed.

(** X5. No [add_..._to_queue] call ever returns [False]. *)
Lemma add_to_queue_never_false k self (x : Payload) self' :
  add_to_queue k self x ≠ Done (false, self').
Proof.
  unfold add_to_queue, put, put_nowait.
  destruct (full (queue_of k self)); discriminate.
Qed.

(** On a full queue the call is parked. *)
Lemma add_to_queue_full_waits k self (x : Payload) :
  full (queue_of k self) = true → add_to_queue k self x = Waits.
Proof. intros H. unfold add_to_queue. by rewrite put_full_waits. Qed.

Lemma queue_of_set_queue k q self : queue_of k (set_queue k q self) = q.
Proof. by destruct k. Qed.

Lemma queue_of_set_queue_ne k k' q self :
  k ≠ k' → queue_of k' (set_queue k q self) = queue_of k' self.
Proof. by destruct k, k'. Qed.

(** X4. A bounded queue that holds no more items than its bound still
    does so after an [add_..._to_queue] call has returned. *)
Lemma add_to_queue_bounded k self (x : Payload) b self' :
  (0 < maxsize (queue_of k self))%Z →
  (qsize (queue_of k self) ≤ maxsize (queue_of k self))%Z →
  add_to_queue k self x = Done (b, self') →
  (qsize (queue_of k self') ≤ maxsize (queue_of k self'))%Z.
Proof.
  intros Hpos Hle. unfold add_to_queue, put, put_nowait, full.
  destruct (Z.leb_spec (maxsize (queue_of k self)) 0); [lia|].
  destruct (Z.leb_spec (maxsize (queue_of k self)) (qsize (queue_of k self))); [done|].
  intros [= <- <-]. rewrite queue_of_set_queue.
  unfold qsize in *. simpl. rewrite length_app. simpl. lia.
Qed.

End Enqueue_facts.

(** C3, at an input on which the code departs from it. 1200 messages
    are enqueued, one call awaited after the other, into the message
    queue of a new handler (bound 1000) from which nothing is taken. The
    first 1000 calls return [True]; the next call finds the queue full
    and is parked in [queue.put]: it does not return [False], it does
    not return at all, and no later call is reached. *)
Theorem enqueue_beyond_capacity_parks :
  let self := AsyncBotHandler.init (Payload := nat) 0 in
  let '(returned, final) := AsyncBotHandler.enqueue_all self (seq 0 1200) in
  returned = replicate 1000 true
  ∧ final = None
  ∧ ∃ full_handler,
      AsyncBotHandler.enqueue_all self (seq 0 1000) = (replicate 1000 true, Some full_handler)
      ∧ Queue.qsize (AsyncBotHandler.message_queue full_handler) = 1000%Z
      ∧ AsyncBotHandler.add_message_to_queue full_handler 1000 = Queue.Waits.
Proof.
  vm_compute. split; [reflexivity|]. split; [reflexivity|].
  eexists. split; [reflexivity|]. split; reflexivity.
Qed.

(** ** Workers *)

Section Worker_facts.
Import Queue AsyncBotHandler.
Local Open Scope list_scope.
Context {Payload : Type}.
Variable process : kind → Payload → handler_result.
Implicit Types (self : AsyncBotHandler.t Payload) (k : kind).


Lemma progress_refl k self : progress k self self [] 0 0.
Proof.
  split; simpl; try done; try (by rewrite app_nil_r); try lia.
  all: destruct k; lia.
Qed.

Lemma progress_trans k (s1 s2 s3 : AsyncBotHandler.t Payload) t1 t2 o1 o2 e1 e2 :
  progress k s1 s2 t1 o1 e1 → progress k s2 s3 t2 o2 e2 →
  progress k s1 s3 (t1 ++ t2) (o1 + o2) (e1 + e2).
Proof.
  intros [] []. split.
  - rewrite <- app_assoc. congruence.
  - lia.
  - intros k' Hk. rewrite p_others1, p_others0; done.
  - rewrite fmap_app, app_assoc. congruence.
  - rewrite replicate_add, app_assoc. congruence.
  - lia.
  - destruct k; lia.
  - destruct k; lia.
Qed.

Lemma queue_of_record_call k k' (x : Payload) self :
  queue_of k (record_call k' x self) = queue_of k self.
Proof. by destruct k. Qed.

(** A turn on an item whose processing returns. *)
Lemma worker_turn_returned k self x rest :
  items (queue_of k self) = x :: rest →
  (0 < unfinished_tasks (queue_of k self))%Z →
  process k x = Returned →
  ∃ self', worker_turn process k self = Continue self' ∧ progress k self self' [x] 1 0.
Proof.
  intros Hi Hu Hp. unfold worker_turn, get. rewrite Hi, Hp.
  rewrite queue_of_record_call, queue_of_set_queue. unfold task_done. simpl.
  destruct (Z.leb_spec (unfinished_tasks (queue_of k self)) 0); [lia|].
  eexists. split; [reflexivity|].
  split; destruct k; simpl; rewrite ?Hi; try done; try lia;
    try (intros [] ?; done); by rewrite app_nil_r.
Qed.

(** A turn on an item whose processing raises an exception other than
    the cancellation of the task. *)
Lemma worker_turn_raised k self x rest e :
  items (queue_of k self) = x :: rest →
  process k x = Raised e → e ≠ CancelledError →
  ∃ self', worker_turn process k self = Continue self' ∧ progress k self self' [x] 0 1.
Proof.
  intros Hi Hp He. unfold worker_turn, get. rewrite Hi, Hp.
  assert (∀ s, on_raise k e s
               = Continue (set_stats (count_error (stats s)) (logger (worker_error k) s))) as ->
    by (intros; destruct e; done).
  eexists. split; [reflexivity|].
  split; destruct k; simpl; rewrite ?Hi; try done; try lia;
    try (intros [] ?; done).
Qed.

(** A turn on an empty queue parks the worker. *)
Lemma worker_turn_empty k self :
  items (queue_of k self) = [] → worker_turn process k self = Parked self.
Proof. intros Hi. unfold worker_turn, get. by rewrite Hi. Qed.

(** Items whose processing returns are taken one by one. *)
Lemma worker_returned_items k (l : list Payload) : ∀ self rest turns,
  items (queue_of k self) = l ++ rest →
  (Z.of_nat (length l) ≤ unfinished_tasks (queue_of k self))%Z →
  Forall (λ y, process k y = Returned) l →
  ∃ self', worker process k (length l + turns) self = worker process k turns self'
           ∧ progress k self self' l (length l) 0.
Proof.
  induction l as [|x l IH]; intros self rest turns Hi Hu Hall.
  - exists self. split; [done|]. apply progress_refl.
  - apply Forall_cons in Hall as [Hx Hall]. simpl in Hi, Hu.
    destruct (worker_turn_returned k self x (l ++ rest) Hi ltac:(lia) Hx)
      as (s1 & Hturn & Hp1).
    destruct (IH s1 rest turns) as (s2 & Hrun & Hp2); [| |done|].
    { destruct Hp1 as [Hit _ _ _ _ _ _ _]. rewrite Hi in Hit. simpl in Hit. congruence. }
    { destruct Hp1 as [_ Hun _ _ _ _ _ _]. lia. }
    exists s2. split.
    + simpl. rewrite Hturn. done.
    + apply (progress_trans k self s1 s2 [x] l 1 (length l) 0 0 Hp1 Hp2).
Qed.

End Worker_facts.

Section Worker_isolation.
Import Queue AsyncBotHandler EventLoop.
Local Open Scope list_scope.
Context {Payload : Type}.

(** The [except Exception] branch of a worker. A worker of kind [k]
    finds the items [before], [x], [after] in its queue; an exception
    other than the cancellation of the task reaches the worker from the
    call on [x], and the call on every other item returns. Given more
    turns than items, the worker does not end: it makes the call on every
    item in queue order, logs one error, adds exactly 1 to [errors], and
    is then parked on the empty queue. The message worker adds the number
    of the other items to [messages_processed] and the file worker to
    [files_processed]; the callback worker counts nothing. *)
Lemma worker_counts_raised_exception (process : kind → Payload → handler_result)
    (k : kind) (self : AsyncBotHandler.t Payload)
    (before after : list Payload) (x : Payload) (e : exn) (turns : nat) :
  items (queue_of k self) = before ++ x :: after →
  (Z.of_nat (length (before ++ x :: after)) ≤ unfinished_tasks (queue_of k self))%Z →
  process k x = Raised e →
  e ≠ CancelledError →
  Forall (λ y, process k y = Returned) (before ++ after) →
  length (before ++ x :: after) < turns →
  ∃ self',
    worker process k turns self = Idle self'
    ∧ items (queue_of k self') = []
    ∧ handled self' = handled self ++ (pair k <$> before ++ x :: after)
    ∧ errors (stats self') = (errors (stats self) + 1)%Z
    ∧ log self' = log self ++ [worker_error k]
    ∧ messages_processed (stats self')
      = (messages_processed (stats self)
         + match k with Message => Z.of_nat (length (before ++ after)) | _ => 0 end)%Z
    ∧ files_processed (stats self')
      = (files_processed (stats self)
         + match k with File => Z.of_nat (length (before ++ after)) | _ => 0 end)%Z.
Proof.
  intros Hi Hu Hx He Hall Hturns.
  rewrite length_app in Hu, Hturns. simpl in Hu, Hturns.
  apply Forall_app in Hall as [Hb Ha].
  destruct (Nat.le_exists_sub (length before + S (length after + 1)) turns ltac:(lia))
    as (m & -> & _).
  replace (m + (length before + S (length after + 1)))
    with (length before + S (length after + S m)) by lia.
  destruct (worker_returned_items process k before self (x :: after)
              (S (length after + S m)) Hi ltac:(lia) Hb) as (s1 & -> & P1).
  assert (items (queue_of k s1) = x :: after) as Hi1.
  { destruct P1 as [Hit _ _ _ _ _ _ _]. rewrite Hi in Hit. by apply app_inv_head in Hit. }
  destruct (worker_turn_raised process k s1 x after e Hi1 Hx He) as (s2 & Hturn & P2).
  cbn [worker]. rewrite Hturn.
  assert (items (queue_of k s2) = after ++ []) as Hi2.
  { destruct P2 as [Hit _ _ _ _ _ _ _]. rewrite Hi1 in Hit.
    rewrite app_nil_r. simpl in Hit. congruence. }
  destruct (worker_returned_items process k after s2 [] (S m) Hi2) as (s3 & -> & P3).
  { destruct P1 as [_ Hu1 _ _ _ _ _ _]. destruct P2 as [_ Hu2 _ _ _ _ _ _]. lia. }
  { done. }
  assert (items (queue_of k s3) = []) as Hi3.
  { destruct P3 as [Hit _ _ _ _ _ _ _]. rewrite Hi2 in Hit.
    rewrite app_nil_r in Hit. symmetry in Hit.
    rewrite <- (app_nil_r after) in Hit at 2. by apply app_inv_head in Hit. }
  exists s3. cbn [worker]. rewrite (worker_turn_empty process k s3 Hi3).
  pose proof (progress_trans k _ _ _ _ _ _ _ _ _
                (progress_trans k _ _ _ _ _ _ _ _ _ P1 P2) P3)
    as [_ _ _ Hhandled Hlog Herrors Hmessages Hfiles].
  split; [done|]. split; [done|].
  split; [by rewrite Hhandled, <- app_assoc|].
  split; [lia|].
  split. { rewrite Hlog. by replace (0 + 1 + 0) with 1 by lia. }
  rewrite length_app. split; destruct k; lia.
Qed.

(** A processing coroutine of the repository returns whenever its body
    is not cancelled and the wrapper of the cache does not raise. *)
Lemma processing_returned (body : kind → Payload → handler_result)
    (cached : Payload → cache_outcome) (k : kind) (y : Payload) :
  body k y ≠ Raised CancelledError → cached y ≠ Expired →
  processing body cached k y = Returned.
Proof.
  intros Hb Hc. unfold processing, guarded.
  destruct k; [destruct (cached y); [done| |done]|..];
    by destruct (body _ y) as [|[]].
Qed.

(** C6, where the code departs from it. A worker of kind [k] finds the
    items [before], [x], [after] in its queue; the body of the
    processing coroutine raises an exception (other than the cancellation
    of the task) on [x] and returns on every other item, and the wrapper
    of the message cache raises on none of them. The processing
    coroutine catches the exception itself, so it does not reach the
    worker: the worker goes on to the next item and works off the whole
    queue, but [errors] stays as it was, and the item on which the body
    raised is counted as processed like the others, in
    [messages_processed] by the message worker and in [files_processed]
    by the file worker. *)
Theorem handler_failure_counts_as_processed (body : kind → Payload → handler_result)
    (cached : Payload → cache_outcome)
    (k : kind) (self : AsyncBotHandler.t Payload)
    (before after : list Payload) (x : Payload) (e : exn) (turns : nat) :
  items (queue_of k self) = before ++ x :: after →
  (Z.of_nat (length (before ++ x :: after)) ≤ unfinished_tasks (queue_of k self))%Z →
  body k x = Raised e →
  e ≠ CancelledError →
  Forall (λ y, body k y = Returned) (before ++ after) →
  Forall (λ y, cached y ≠ Expired) (before ++ x :: after) →
  length (before ++ x :: after) < turns →
  ∃ self',
    worker (processing body cached) k turns self = Idle self'
    ∧ items (queue_of k self') = []
    ∧ handled self' = handled self ++ (pair k <$> before ++ x :: after)
    ∧ errors (stats self') = errors (stats self)
    ∧ messages_processed (stats self')
      = (messages_processed (stats self)
         + match k with
           | Message => Z.of_nat (length (before ++ x :: after))
           | _ => 0
           end)%Z
    ∧ files_processed (stats self')
      = (files_processed (stats self)
         + match k with
           | File => Z.of_nat (length (before ++ x :: after))
           | _ => 0
           end)%Z.
Proof.
  intros Hi Hu Hx He Hall Hcached Hturns.
  set (l := before ++ x :: after) in *.
  assert (Forall (λ y, processing body cached k y = Returned) l) as Hret.
  { rewrite Forall_forall in Hcached. apply Forall_forall. intros y Hy.
    apply processing_returned; [|by apply Hcached].
    subst l. apply elem_of_app in Hy as [Hy|Hy].
    - rewrite Forall_forall in Hall. rewrite (Hall y); [done|].
      apply elem_of_app. by left.
    - apply elem_of_cons in Hy as [->|Hy].
      + rewrite Hx. by intros [= ->].
      + rewrite Forall_forall in Hall. rewrite (Hall y); [done|].
        apply elem_of_app. by right. }
  destruct (Nat.le_exists_sub (length l + 1) turns ltac:(lia)) as (m & -> & _).
  replace (m + (length l + 1)) with (length l + S m) by lia.
  destruct (worker_returned_items (processing body cached) k l self [] (S m))
    as (s1 & -> & P1); [by rewrite app_nil_r|done|done|].
  destruct P1 as [Hit Hun Hoth Hhandled Hlog Herrors Hmessages Hfiles].
  assert (items (queue_of k s1) = []) as Hi1.
  { rewrite Hi in Hit. rewrite <- (app_nil_r l) in Hit at 1.
    by apply app_inv_head in Hit. }
  exists s1. cbn [worker]. rewrite (worker_turn_empty (processing body cached) k s1 Hi1).
  repeat split; try done; lia.
Qed.

(** X30. The one exception that reaches a worker: the [KeyError] of the
    wrapper of the message cache. The message worker finds the messages
    [before], [x], [after] in its queue; the wrapper raises on [x]; on
    the other messages it does not, and their bodies return. The worker
    logs the error, adds exactly 1 to [errors], does not count [x] as
    processed, and goes on: every other message is processed and
    counted. *)
Theorem wrapper_failure_is_counted (body : kind → Payload → handler_result)
    (cached : Payload → cache_outcome) (self : AsyncBotHandler.t Payload)
    (before after : list Payload) (x : Payload) (turns : nat) :
  items (message_queue self) = before ++ x :: after →
  (Z.of_nat (length (before ++ x :: after)) ≤ unfinished_tasks (message_queue self))%Z →
  cached x = Expired →
  Forall (λ y, body Message y = Returned ∧ cached y ≠ Expired) (before ++ after) →
  length (before ++ x :: after) < turns →
  ∃ self',
    _message_worker (processing body cached) turns self = Idle self'
    ∧ items (message_queue self') = []
    ∧ handled self' = handled self ++ (pair Message <$> before ++ x :: after)
    ∧ errors (stats self') = (errors (stats self) + 1)%Z
    ∧ log self' = log self ++ [worker_error Message]
    ∧ messages_processed (stats self')
      = (messages_processed (stats self) + Z.of_nat (length (before ++ after)))%Z.
Proof.
  intros Hi Hu Hx Hall Hturns.
  destruct (worker_counts_raised_exception (processing body cached) Message self
              before after x (Exception "KeyError") turns)
    as (self' & Hrun & Hitems & Hhandled & Herrors & Hlog & Hmessages & _);
    try done.
  - unfold processing. by rewrite Hx.
  - apply Forall_forall. intros y Hy. rewrite Forall_forall in Hall.
    destruct (Hall y Hy) as [Hb Hc].
    apply processing_returned; [by rewrite Hb|done].
  - by exists self'.
Qed.

End Worker_isolation.

(** Witness of C6: the file worker on ten files, on the third of which
    the body raises (as it does on a file of type [console_image], whose
    handler the class does not have). All ten are counted as processed
    and no error is counted. *)
Lemma handler_failure_counts_as_processed_witness :
  let body := λ (k : AsyncBotHandler.kind) (y : nat),
    if (y =? 3)%nat then AsyncBotHandler.Raised (Queue.Exception "AttributeError")
    else AsyncBotHandler.Returned in
  let process := EventLoop.processing body (λ _, EventLoop.Miss) in
  let self :=
    AsyncBotHandler.set_queue AsyncBotHandler.File
      (Queue.Mk 100 [1; 2; 3; 4; 5; 6; 7; 8; 9; 10] 10) (AsyncBotHandler.init 0) in
  ∃ self',
    AsyncBotHandler._file_worker process 11 self = AsyncBotHandler.Idle self'
    ∧ AsyncBotHandler.errors (AsyncBotHandler.stats self') = 0%Z
    ∧ AsyncBotHandler.files_processed (AsyncBotHandler.stats self') = 10%Z.
Proof.
  intros body process self.
  destruct (handler_failure_counts_as_processed body (λ _, EventLoop.Miss)
              AsyncBotHandler.File self
              [1; 2] [4; 5; 6; 7; 8; 9; 10] 3 (Queue.Exception "AttributeError") 11)
    as (self' & Hrun & _ & _ & Herr & _ & Hfiles).
  - reflexivity.
  - simpl. lia.
  - reflexivity.
  - discriminate.
  - repeat constructor.
  - repeat constructor; discriminate.
  - simpl. lia.
  - exists self'. split; [exact Hrun|]. split; [exact Herr | exact Hfiles].
Defined.

(** ** TTLCache *)

Section TTLCache_facts.
Import TTLCache.
Local Open Scope list_scope.
Local Open Scope Z_scope.
Context {K V : Type} `{EqDecision K}.
Implicit Types (c : TTLCache.t K V) (l pre post : list (link K V)) (k : K).


Lemma find_absent k l : k ∉ keys l → find k l = None.
Proof.
  induction l as [|a l IH]; [done|]. intros Hn. simpl.
  apply not_elem_of_cons in Hn as [Hne Hn]. unfold find in *. simpl.
  rewrite bool_decide_false by done. auto.
Qed.

Lemma find_present k l a : find k l = Some a → key a = k ∧ a ∈ l.
Proof.
  unfold find. intros Hf. apply List.find_some in Hf as [Hin Hk].
  apply bool_decide_eq_true in Hk. split; [done|]. by apply list_elem_of_In.
Qed.

Lemma find_none_absent k l : find k l = None → k ∉ keys l.
Proof.
  unfold find. intros Hf Hin. apply list_elem_of_fmap in Hin as (a & -> & Ha).
  apply list_elem_of_In in Ha.
  pose proof (List.find_none _ _ Hf a Ha) as Hb. simpl in Hb.
  by rewrite bool_decide_true in Hb.
Qed.

Lemma find_middle k pre post a :
  key a = k → k ∉ keys pre → find k (pre ++ a :: post) = Some a.
Proof.
  intros Hk. induction pre as [|b pre IH]; intros Hn; unfold find in *; simpl.
  - by rewrite bool_decide_true.
  - apply not_elem_of_cons in Hn as [Hne Hn].
    rewrite bool_decide_false by done. auto.
Qed.

Lemma without_absent k l : k ∉ keys l → without k l = l.
Proof.
  induction l as [|a l IH]; [done|]. intros Hn.
  apply not_elem_of_cons in Hn as [Hne Hn]. unfold without in *. simpl.
  rewrite bool_decide_false by done. simpl. f_equal. auto.
Qed.

Lemma without_app k l1 l2 : without k (l1 ++ l2) = without k l1 ++ without k l2.
Proof. apply List.filter_app. Qed.

Lemma keys_without k k' l : k ∉ keys l → k ∉ keys (without k' l).
Proof.
  intros Hn Hin. apply Hn. apply list_elem_of_fmap in Hin as (a & -> & Ha).
  apply list_elem_of_In, List.filter_In in Ha as [Ha _].
  apply list_elem_of_fmap. exists a. split; [done|]. by apply list_elem_of_In.
Qed.

Lemma keys_without_same k l : k ∉ keys (without k l).
Proof.
  intros Hin. apply list_elem_of_fmap in Hin as (a & -> & Ha).
  apply list_elem_of_In, List.filter_In in Ha as [_ Ha].
  by rewrite bool_decide_true in Ha.
Qed.

Lemma keys_expire k now l : k ∉ keys l → k ∉ keys (expire now l).
Proof.
  intros Hn Hin. apply Hn. apply list_elem_of_fmap in Hin as (a & -> & Ha).
  apply list_elem_of_In, List.filter_In in Ha as [Ha _].
  apply list_elem_of_fmap. exists a. split; [done|]. by apply list_elem_of_In.
Qed.

Lemma keys_drop k n l : k ∉ keys l → k ∉ keys (drop n l).
Proof.
  intros Hn Hin. apply Hn. unfold keys in *. rewrite fmap_drop in Hin.
  exact (subseteq_drop n _ _ Hin).
Qed.

Lemma length_filter_le {X} (f : X → bool) (l : list X) :
  (length (List.filter f l) ≤ length l)%nat.
Proof. induction l as [|a l IH]; simpl; [lia|]. destruct (f a); simpl; lia. Qed.

End TTLCache_facts.

Section TTLCache_holds.
Import TTLCache.
Local Open Scope list_scope.
Local Open Scope Z_scope.
Context {K V : Type} `{EqDecision K}.
Implicit Types (c : TTLCache.t K V) (l pre post : list (link K V)) (k : K).

(** A stored value is found while its time has not passed. *)
Lemma holds_contains k (r : V) e j c now :
  holds k r e j c → now < e → contains now c k = true.
Proof.
  intros (pre & post & Hl & Hpre & _ & _) Hnow. unfold contains.
  rewrite Hl, (find_middle k pre post (Link k r e)) by done.
  unfold live. simpl. by apply Z.ltb_lt.
Qed.

(** Reading it returns it and makes it the most recently used item. *)
Lemma holds_getitem k (r : V) e j c now :
  holds k r e j c → now < e →
  (getitem now c k).1 = Some r
  ∧ holds k r e 0 (getitem now c k).2
  ∧ maxsize (getitem now c k).2 = maxsize c
  ∧ ttl (getitem now c k).2 = ttl c.
Proof.
  intros (pre & post & Hl & Hpre & Hpost & _) Hnow. unfold getitem.
  rewrite Hl, (find_middle k pre post (Link k r e)) by done.
  unfold live. simpl. rewrite (proj2 (Z.ltb_lt now e) Hnow).
  split; [done|]. split; [|done].
  exists (pre ++ post), []. simpl.
  rewrite without_app. unfold without at 2. simpl.
  rewrite bool_decide_true by done. simpl. fold (without k post).
  rewrite !without_absent by done.
  split; [done|]. split; [|split; [apply not_elem_of_nil|lia]].
  unfold keys. rewrite fmap_app. by apply not_elem_of_app.
Qed.

(** Reading another key moves at most one item behind it. *)
Lemma holds_getitem_other k k' (r : V) e j c now :
  k' ≠ k → holds k r e j c →
  holds k r e (S j) (getitem now c k').2
  ∧ maxsize (getitem now c k').2 = maxsize c
  ∧ ttl (getitem now c k').2 = ttl c.
Proof.
  intros Hne (pre & post & Hl & Hpre & Hpost & Hj). unfold getitem.
  destruct (find k' (links c)) as [a|] eqn:Hf; simpl.
  - split; [|done]. apply find_present in Hf as [Hk _].
    exists (without k' pre), (without k' post ++ [a]).
    rewrite Hl, without_app. unfold without at 2. simpl.
    rewrite bool_decide_false by done. simpl. fold (without k' post).
    rewrite <- app_assoc. simpl.
    split; [done|]. split; [by apply keys_without|]. split.
    + unfold keys. rewrite fmap_app. apply not_elem_of_app. split.
      * by apply keys_without.
      * simpl. rewrite Hk. intros Hin%list_elem_of_singleton. done.
    + rewrite length_app. simpl.
      pose proof (length_filter_le (λ e0, negb (bool_decide (key e0 = k'))) post).
      unfold without. lia.
  - split; [|done]. exists pre, post. repeat split; try done. lia.
Qed.

Lemma expire_middle pre post (a : link K V) now :
  now < expires a →
  expire now (pre ++ a :: post) = expire now pre ++ a :: expire now post.
Proof.
  intros Hlive. unfold expire. rewrite List.filter_app. simpl.
  unfold live at 2. by rewrite (proj2 (Z.ltb_lt now (expires a)) Hlive).
Qed.

(** Storing another key keeps it, unless as many items as the cache can
    hold, less one, have been used more recently. *)
Lemma holds_setitem_other k k' (r v : V) e j c later :
  k' ≠ k → holds k r e j c → later < e → (S (S j) ≤ maxsize c)%nat →
  holds k r e (S j) (setitem later c k' v)
  ∧ maxsize (setitem later c k' v) = maxsize c
  ∧ ttl (setitem later c k' v) = ttl c.
Proof.
  intros Hne (pre & post & Hl & Hpre & Hpost & Hj) Hlater Hroom. unfold setitem.
  rewrite Hl, (expire_middle pre post (Link k r e)) by done.
  set (pre' := expire later pre). set (post' := expire later post).
  assert (k ∉ keys pre') as Hpre' by by apply keys_expire.
  assert (k ∉ keys post') as Hpost' by by apply keys_expire.
  assert (length post' ≤ length post)%nat as Hlen by apply length_filter_le.
  assert (k ∉ keys [Link k' v (later + ttl c)]) as Hnew.
  { simpl. intros Hin%list_elem_of_singleton. done. }
  destruct (find k' (pre' ++ Link k r e :: post')) as [a|] eqn:Hf; simpl.
  - split; [|done].
    exists (without k' pre'), (without k' post' ++ [Link k' v (later + ttl c)]).
    rewrite without_app. unfold without at 2. simpl.
    rewrite bool_decide_false by done. simpl. fold (without k' post').
    rewrite <- app_assoc. simpl.
    split; [done|]. split; [by apply keys_without|]. split.
    + unfold keys. rewrite fmap_app. apply not_elem_of_app. split; [|done].
      by apply keys_without.
    + rewrite length_app. simpl.
      pose proof (length_filter_le (λ e0, negb (bool_decide (key e0 = k'))) post').
      unfold without. lia.
  - split; [|done].
    set (d := (length (pre' ++ Link k r e :: post') + 1 - maxsize c)%nat).
    assert (d ≤ length pre')%nat as Hd.
    { subst d. rewrite length_app. simpl. lia. }
    exists (drop d pre'), (post' ++ [Link k' v (later + ttl c)]).
    rewrite drop_app_le by done. rewrite <- app_assoc. simpl.
    split; [done|]. split; [by apply keys_drop|]. split.
    + unfold keys. rewrite fmap_app. by apply not_elem_of_app.
    + rewrite length_app. simpl. lia.
Qed.

(** Storing a value makes it the only and the most recently used item of
    its key. *)
Lemma setitem_holds k (v : V) c now :
  holds k v (now + ttl c) 0 (setitem now c k v)
  ∧ maxsize (setitem now c k v) = maxsize c
  ∧ ttl (setitem now c k v) = ttl c.
Proof.
  unfold setitem. destruct (find k (expire now (links c))) as [a|] eqn:Hf; simpl.
  - split; [|done]. exists (without k (expire now (links c))), [].
    split; [done|]. split; [apply keys_without_same|].
    split; [apply not_elem_of_nil|simpl; lia].
  - split; [|done]. eexists (drop _ (expire now (links c))), [].
    split; [done|]. split; [by apply keys_drop, find_none_absent|].
    split; [apply not_elem_of_nil|simpl; lia].
Qed.

Lemma holds_weaken k (r : V) e j j' c : (j ≤ j')%nat → holds k r e j c → holds k r e j' c.
Proof. intros Hj (pre & post & ? & ? & ? & ?). exists pre, post. repeat split; try done. lia. Qed.

End TTLCache_holds.

(** ** The [async_cached] decorator *)

Section AsyncCached_facts.
Import AsyncCached.
Local Open Scope list_scope.
Local Open Scope Z_scope.
Context {Args R W : Type}.
Variable str_args : Args → string.
Variable hash : string → Z.
Variable func_name : string.
Variable func : Args → W → R * W.

Local Abbreviation wrapper := (wrapper str_args hash func_name func).
Local Abbreviation calls := (calls str_args hash func_name func).
Local Abbreviation cache_key := (cache_key str_args hash func_name).
Local Abbreviation other_keys := (other_keys str_args hash func_name).

Implicit Types (self : AsyncCached.t Args R W) (args : Args).

Lemma contains_getitem {K V} `{EqDecision K} (c : TTLCache.t K V) (k : K) now :
  TTLCache.contains now c k = true → ∃ v, (TTLCache.getitem now c k).1 = Some v.
Proof.
  unfold TTLCache.contains, TTLCache.getitem.
  destruct (TTLCache.find k (TTLCache.links c)) as [a|]; [|done].
  simpl. intros ->. eauto.
Qed.

(** A miss runs the wrapped coroutine and stores its result. *)
Lemma wrapper_miss now later args self :
  TTLCache.contains now (cache self) (cache_key args) = false →
  wrapper now later args self
  = ((func args (world self)).1,
     Mk (TTLCache.setitem later (cache self) (cache_key args) (func args (world self)).1)
        (func args (world self)).2 (runs self ++ [args])).
Proof.
  intros Hm. unfold AsyncCached.wrapper. rewrite Hm.
  by destruct (func args (world self)).
Qed.

(** A hit returns the stored result and runs nothing. *)
Lemma wrapper_hit now later args self :
  TTLCache.contains now (cache self) (cache_key args) = true →
  ∃ r, (TTLCache.getitem now (cache self) (cache_key args)).1 = Some r
       ∧ wrapper now later args self
         = (r, Mk (TTLCache.getitem now (cache self) (cache_key args)).2
                  (world self) (runs self)).
Proof.
  intros Hh. destruct (contains_getitem _ _ _ Hh) as [r Hr]. exists r.
  split; [done|]. unfold AsyncCached.wrapper. rewrite Hh.
  destruct (TTLCache.getitem now (cache self) (cache_key args)) as [o c].
  simpl in Hr. by subst o.
Qed.


(** One call with the key [k] itself, before its time has passed. *)
Lemma wrapper_keeps_same k (r : R) e j now later args self :
  TTLCache.holds k r e j (cache self) → now < e → cache_key args = k →
  (wrapper now later args self).1 = r
  ∧ runs (wrapper now later args self).2 = runs self
  ∧ world (wrapper now later args self).2 = world self
  ∧ TTLCache.holds k r e 0 (cache (wrapper now later args self).2)
  ∧ TTLCache.maxsize (cache (wrapper now later args self).2) = TTLCache.maxsize (cache self).
Proof.
  intros Hh Hnow <-.
  destruct (wrapper_hit now later args self (holds_contains _ _ _ _ _ _ Hh Hnow))
    as (r' & Hr & ->).
  destruct (holds_getitem _ _ _ _ _ _ Hh Hnow) as (Hr' & Hh' & Hm & _).
  simpl. repeat split; try done. congruence.
Qed.

(** One call with another key. *)
Lemma wrapper_keeps_other k (r : R) e j now later args self :
  TTLCache.holds k r e j (cache self) → later < e → cache_key args ≠ k →
  (S (S j) ≤ TTLCache.maxsize (cache self))%nat →
  TTLCache.holds k r e (S j) (cache (wrapper now later args self).2)
  ∧ TTLCache.maxsize (cache (wrapper now later args self).2) = TTLCache.maxsize (cache self).
Proof.
  intros Hh Hlater Hne Hroom.
  destruct (TTLCache.contains now (cache self) (cache_key args)) eqn:Hc.
  - destruct (wrapper_hit now later args self Hc) as (r' & _ & ->). simpl.
    destruct (holds_getitem_other k (cache_key args) r e j (cache self) now Hne Hh)
      as (? & ? & _). done.
  - rewrite (wrapper_miss now later args self Hc). simpl.
    destruct (holds_setitem_other k (cache_key args) r (func args (world self)).1
                e j (cache self) later Hne Hh Hlater Hroom) as (? & ? & _). done.
Qed.

(** A series of calls before the time of [k] has passed, fewer of them
    with other keys than the cache has room for. *)
Lemma calls_keep k (r : R) e (cs : list (Z * Z * Args)) : ∀ self (j : nat),
  TTLCache.holds k r e j (cache self) →
  Forall (λ c, c.1.1 < e ∧ c.1.2 < e) cs →
  (j + other_keys k cs < TTLCache.maxsize (cache self))%nat →
  TTLCache.holds k r e (j + other_keys k cs) (cache (calls cs self))
  ∧ TTLCache.maxsize (cache (calls cs self)) = TTLCache.maxsize (cache self).
Proof.
  induction cs as [|[[now later] args] cs IH]; intros self j Hh Hall Hroom.
  - simpl. split; [|done]. eapply holds_weaken; [|done]. lia.
  - apply Forall_cons in Hall as [[Hnow Hlater] Hall]. simpl in Hnow, Hlater.
    unfold AsyncCached.other_keys in *. rewrite filter_cons in *. simpl in *.
    destruct (decide (cache_key args ≠ k)) as [Hne|Heq]; simpl in *.
    + destruct (wrapper_keeps_other k r e j now later args self Hh Hlater Hne ltac:(lia))
        as [Hh' Hm'].
      destruct (IH _ (S j) Hh' Hall ltac:(lia)) as [Hh'' Hm''].
      split; [|congruence].
      by replace (j + S (length (filter (λ c, cache_key c.2 ≠ k) cs)))%nat
        with (S j + length (filter (λ c, cache_key c.2 ≠ k) cs))%nat by lia.
    + apply dec_stable in Heq.
      destruct (wrapper_keeps_same k r e j now later args self Hh Hnow Heq)
        as (_ & _ & _ & Hh' & Hm').
      destruct (IH _ j (holds_weaken _ _ _ 0%nat j _ ltac:(lia) Hh') Hall ltac:(lia))
        as [Hh'' Hm''].
      split; [done|congruence].
Qed.

(** C10 (amended). A call of the decorated coroutine misses the cache,
    so the wrapped coroutine runs and its result is stored at time [t1'].
    A later call whose arguments print as the same string, made before
    [t1' + ttl], returns that result from the cache and does not run the
    wrapped coroutine again, provided that the calls in between were made
    before [t1' + ttl] too and that fewer of them had other keys than the
    cache TTLCache.holds items (100 for every decorated coroutine). *)
Theorem cached_call_not_repeated self args args' (t1 t1' t2 t2' : Z)
    (between : list (Z * Z * Args)) :
  str_args args = str_args args' →
  TTLCache.contains t1 (cache self) (cache_key args) = false →
  Forall (λ c, c.1.1 < t1' + TTLCache.ttl (cache self)
               ∧ c.1.2 < t1' + TTLCache.ttl (cache self)) between →
  (other_keys (cache_key args) between < TTLCache.maxsize (cache self))%nat →
  t2 < t1' + TTLCache.ttl (cache self) →
  let first := wrapper t1 t1' args self in
  let before_second := calls between first.2 in
  let second := wrapper t2 t2' args' before_second in
  runs first.2 = runs self ++ [args]
  ∧ second.1 = first.1
  ∧ runs second.2 = runs before_second
  ∧ world second.2 = world before_second.
Proof.
  intros Hstr Hmiss Hall Hroom Ht2 first before_second second.
  subst second before_second first.
  rewrite (wrapper_miss t1 t1' args self Hmiss). simpl.
  set (r := (func args (world self)).1).
  set (s1 := Mk _ _ _).
  destruct (setitem_holds (cache_key args) r (cache self) t1') as (Hh & Hm & _).
  destruct (calls_keep (cache_key args) r _ between s1 0%nat Hh Hall) as [Hh' _].
  { simpl. rewrite Hm. lia. }
  assert (cache_key args' = cache_key args) as Hk.
  { unfold AsyncCached.cache_key. by rewrite Hstr. }
  destruct (wrapper_keeps_same _ _ _ _ t2 t2' args' _ Hh' Ht2 Hk) as (? & ? & ? & _).
  done.
Qed.

End AsyncCached_facts.


(** Witness of C10: message 7 at time 0, two other messages, message 7
    again at time 200. *)
Lemma cached_call_not_repeated_witness :
  let first := MessageSample.wrapper 0 1 7 MessageSample.decorated in
  let before_second := MessageSample.calls [(10%Z, 11%Z, 8); (20%Z, 21%Z, 9)] first.2 in
  let second := MessageSample.wrapper 200 201 7 before_second in
  AsyncCached.runs first.2 = [7]
  ∧ second.1 = first.1
  ∧ AsyncCached.runs second.2 = AsyncCached.runs before_second
  ∧ AsyncCached.world second.2 = AsyncCached.world before_second.
Proof.
  apply (cached_call_not_repeated MessageSample.str_args MessageSample.hash
           "_process_message_async" MessageSample.func
           MessageSample.decorated 7 7 0 1 200 201 [(10%Z, 11%Z, 8); (20%Z, 21%Z, 9)]).
  - reflexivity.
  - reflexivity.
  - repeat constructor; simpl; lia.
  - vm_compute. lia.
  - simpl. lia.
Defined.

(** C10 as stated fails when the cache runs over: message 0 is
    processed at time 0, a hundred other messages at time 1, and message
    0 again at time 2, well within the 300 seconds. The wrapped coroutine
    runs on message 0 both times. *)
Lemma cached_call_repeated_after_eviction :
  let series :=
    (0%Z, 0%Z, 0) :: ((λ message, (1%Z, 1%Z, message)) <$> seq 1 100) ++ [(2%Z, 2%Z, 0)] in
  AsyncCached.runs (MessageSample.calls series MessageSample.decorated)
  = 0 :: seq 1 100 ++ [0].
Proof. vm_compute. reflexivity. Qed.

(** ** The atomic write *)

Section Write_facts.
Import FileSystem HighPerformanceFileHandler.
Local Open Scope list_scope.
Local Open Scope nat_scope.

Lemma string_app_cons (c : ascii) (s1 s2 : string) :
  (String c s1 ++ s2)%string = String c (s1 ++ s2).
Proof. reflexivity. Qed.

Lemma string_app_nil_r (s : string) : (s ++ EmptyString)%string = s.
Proof.
  induction s as [|c s IH]; [reflexivity|]. by rewrite string_app_cons, IH.
Qed.

Lemma string_app_assoc (s1 s2 s3 : string) :
  ((s1 ++ s2) ++ s3)%string = (s1 ++ (s2 ++ s3))%string.
Proof.
  induction s1 as [|c s1 IH]; [reflexivity|]. by rewrite !string_app_cons, IH.
Qed.

Lemma string_app_length (s1 s2 : string) :
  String.length (s1 ++ s2)%string = String.length s1 + String.length s2.
Proof.
  induction s1 as [|c s1 IH]; [reflexivity|]. rewrite string_app_cons. simpl. by rewrite IH.
Qed.

(** The temporary path is not the path itself. *)
Lemma temp_path_ne (file_path : string) : temp_path file_path ≠ file_path.
Proof.
  intros Heq. apply (f_equal String.length) in Heq.
  unfold temp_path in Heq. rewrite string_app_length in Heq. simpl in Heq. lia.
Qed.


Lemma joined_pieces_from (n : nat) (s : string) : ∀ (room : nat) (piece : string),
  joined (pieces_from n room piece s) = (piece ++ s)%string.
Proof.
  induction s as [|c s IH]; intros room piece; simpl.
  - rewrite string_app_nil_r. case_bool_decide as Hp; simpl.
    + by rewrite Hp.
    + by rewrite string_app_nil_r.
  - destruct room as [|r]; simpl.
    + by rewrite IH.
    + rewrite IH, string_app_assoc. done.
Qed.

Lemma joined_pieces (n : nat) (s : string) : joined (pieces n s) = s.
Proof. unfold pieces. by rewrite joined_pieces_from. Qed.

Lemma run_app (ops1 ops2 : list op) (d : FileSystem.t) :
  run (ops1 ++ ops2) d = run ops2 (run ops1 d).
Proof. apply foldl_app. Qed.

(** Appending pieces to a file appends their text. *)
Lemma run_appends (path : string) (stamp : Z) (ps : list string) :
  ∀ (d : FileSystem.t) (text : string) (stamp0 : Z),
  d !! path = Some (File text stamp0) →
  ps ≠ [] ∨ stamp0 = stamp →
  run ((λ piece, Append path piece stamp) <$> ps) d
  = <[path := File (text ++ joined ps) stamp]> d.
Proof.
  induction ps as [|p ps IH]; intros d text stamp0 Hd Hs; simpl.
  - destruct Hs as [?| ->]; [done|]. rewrite string_app_nil_r.
    symmetry. by apply insert_id.
  - unfold run in *. simpl. rewrite Hd.
    rewrite (IH _ (text ++ p)%string stamp).
    + by rewrite insert_insert_eq, string_app_assoc.
    + by rewrite lookup_insert_eq.
    + by right.
Qed.


Lemma write_steps_split e file_path data d :
  write_steps e file_path data d
  = fill_steps e file_path data ++ move_steps e file_path d.
Proof. done. Qed.

(** After the filling steps the temporary file holds the whole text. *)
Lemma run_fill_steps e file_path data (d : FileSystem.t) :
  run (fill_steps e file_path data) d
  = <[temp_path file_path := File (Json.dumps_indented data) (stamp e)]> d.
Proof.
  unfold fill_steps. change (?x :: ?l) with ([x] ++ l). rewrite run_app.
  unfold run at 2. simpl.
  rewrite (run_appends _ _ _ _ EmptyString (stamp e)).
  - rewrite joined_pieces. simpl. by rewrite insert_insert_eq.
  - by rewrite lookup_insert_eq.
  - by right.
Qed.

(** While the temporary file is filled, no other path changes. *)
Lemma run_fill_steps_other e file_path data (d : FileSystem.t) (k : nat) (path : string) :
  path ≠ temp_path file_path →
  run (take k (fill_steps e file_path data)) d !! path = d !! path.
Proof.
  intros Hne.
  assert (∀ ops : list op,
    Forall (λ o, ∃ text, o = Create (temp_path file_path) (stamp e)
                         ∨ o = Append (temp_path file_path) text (stamp e)) ops →
    ∀ d0 : FileSystem.t, run ops d0 !! path = d0 !! path) as Hrun.
  { induction 1 as [|o ops [text [->| ->]] _ IH]; intros d0; [done| |];
      unfold run in *; simpl; rewrite IH.
    - by rewrite lookup_insert_ne.
    - destruct (d0 !! temp_path file_path); by rewrite lookup_insert_ne. }
  apply Hrun, Forall_take. unfold fill_steps. constructor.
  - exists EmptyString. by left.
  - apply Forall_fmap, Forall_true. intros piece. exists piece. by right.
Qed.

(** A write that runs to its end leaves the new text at the path and no
    temporary file. *)
Lemma run_write_steps e file_path data (d : FileSystem.t) :
  run (write_steps e file_path data d) d
  = <[file_path := File (Json.dumps_indented data) (stamp e)]>
      (delete (temp_path file_path) d).
Proof.
  rewrite write_steps_split, run_app, run_fill_steps.
  pose proof (temp_path_ne file_path) as Hne.
  assert (∀ d0 : FileSystem.t,
    run [Rename (temp_path file_path) file_path]
        (<[temp_path file_path := File (Json.dumps_indented data) (stamp e)]> d0)
    = <[file_path := File (Json.dumps_indented data) (stamp e)]>
        (delete (temp_path file_path) d0)) as Hmove.
  { intros d0. unfold run. simpl. by rewrite lookup_insert_eq, delete_insert_eq. }
  unfold move_steps. destruct (os e); [apply Hmove|].
  destruct (exists_ file_path d); [|apply Hmove].
  rewrite run_app.
  change (run [Remove file_path] ?x) with (delete file_path x).
  rewrite delete_insert_ne by done. rewrite Hmove.
  rewrite delete_delete. by rewrite insert_delete_eq.
Qed.

Lemma write_without_fault e file_path data (d : FileSystem.t) :
  _write_file_async e None file_path data d
  = (true, <[file_path := File (Json.dumps_indented data) (stamp e)]>
             (delete (temp_path file_path) d)).
Proof. unfold _write_file_async. by rewrite run_write_steps. Qed.

(** A write that fails leaves no temporary file. *)
Lemma failed_write_removes_temp e fault file_path data (d : FileSystem.t) :
  (_write_file_async e fault file_path data d).1 = false →
  (_write_file_async e fault file_path data d).2 !! temp_path file_path = None.
Proof.
  unfold _write_file_async. destruct fault as [k|]; [|done].
  destruct (k <? length _)%nat; [|done]. simpl. intros _.
  unfold exists_. destruct (run _ d !! temp_path file_path) eqn:Ht.
  - apply lookup_delete_eq.
  - done.
Qed.

(** X1. On a platform other than Windows the file at the path is, at
    every point at which the process can die during the write, the old
    one or the whole new one. *)
Lemma posix_crash_atomic e (k : nat) file_path data (d : FileSystem.t) :
  os e = Posix →
  crashed e k file_path data d !! file_path = d !! file_path
  ∨ crashed e k file_path data d !! file_path
    = Some (File (Json.dumps_indented data) (stamp e)).
Proof.
  intros Hos. unfold crashed.
  destruct (decide (k ≤ length (fill_steps e file_path data))) as [Hk|Hk].
  - left. rewrite write_steps_split, take_app_le by done.
    apply run_fill_steps_other. pose proof (temp_path_ne file_path). done.
  - right. rewrite take_ge.
    + by rewrite run_write_steps, lookup_insert_eq.
    + rewrite write_steps_split, length_app. unfold move_steps. rewrite Hos.
      cbn [length]. lia.
Qed.

(** On Windows, when the file exists, the process can die between the
    removal of the file and the renaming of the temporary file: then there
    is no file at the path. *)
Lemma nt_crash_window e file_path data (d : FileSystem.t) f :
  os e = Nt → d !! file_path = Some f →
  crashed e (S (length (fill_steps e file_path data))) file_path data d !! file_path = None.
Proof.
  intros Hos Hf. unfold crashed, write_steps, move_steps, exists_.
  rewrite Hos, Hf, take_app, take_ge by lia.
  replace (S (length (fill_steps e file_path data)) - length (fill_steps e file_path data))
    with 1 by lia.
  rewrite run_app, run_fill_steps.
  change (run _ ?x) with (delete file_path x).
  apply lookup_delete_eq.
Qed.

End Write_facts.


(** C1, at an input on which the code departs from it. On Windows
    ([os.name == 'nt']) the file [data/users.json] exists and a new
    document is written. The disk calls are: create the temporary file,
    write it, remove [data/users.json], rename the temporary file. When
    the process dies after the third call, [data/users.json] is gone: the
    disk holds neither the previous document nor the new one under that
    name, only the temporary file. (When instead the rename raises, the
    [except] branch removes the temporary file as well and both documents
    are lost.) *)
Theorem nt_crash_loses_document :
  let e := HighPerformanceFileHandler.Env HighPerformanceFileHandler.Nt 4096 9 in
  let path := "data/users.json" in
  let text := Json.dumps_indented UsersSample.second in
  let after_crash :=
    HighPerformanceFileHandler.crashed e 3 path UsersSample.second UsersSample.disk in
  let after_failed_rename :=
    HighPerformanceFileHandler._write_file_async e (Some 3) path
      UsersSample.second UsersSample.disk in
  HighPerformanceFileHandler.write_steps e path UsersSample.second UsersSample.disk
  = [FileSystem.Create "data/users.json.tmp" 9;
     FileSystem.Append "data/users.json.tmp" text 9;
     FileSystem.Remove "data/users.json";
     FileSystem.Rename "data/users.json.tmp" "data/users.json"]
  ∧ UsersSample.disk !! path
    = Some (FileSystem.File (Json.dumps_indented UsersSample.first) 5)
  ∧ after_crash !! path = None
  ∧ after_crash !! "data/users.json.tmp" = Some (FileSystem.File text 9)
  ∧ after_failed_rename.1 = false
  ∧ after_failed_rename.2 !! path = None
  ∧ after_failed_rename.2 !! "data/users.json.tmp" = None.
Proof. vm_compute. repeat split; reflexivity. Qed.

(** ** AsyncDatabaseManager *)

Section Manager_facts.
Import FileSystem HighPerformanceFileHandler AsyncDatabaseManager.
Local Open Scope list_scope.
Local Open Scope Z_scope.
Variable json_loads : string → option Json.dict.
Implicit Types (self : AsyncDatabaseManager.t) (d : Json.dict) (l : loc).

Local Abbreviation load_data := (load_data json_loads).

(** A stored value is not found once its time has passed. *)
Lemma holds_expired {K V} `{EqDecision K} (k : K) (r : V) e j (c : TTLCache.t K V) now :
  TTLCache.holds k r e j c → e ≤ now → TTLCache.contains now c k = false.
Proof.
  intros (pre & post & Hl & Hpre & _ & _) Hnow. unfold TTLCache.contains.
  rewrite Hl, (find_middle k pre post (TTLCache.Link k r e)) by done.
  unfold TTLCache.live. simpl. by apply Z.ltb_ge.
Qed.

Lemma deref_lookup l d self : heap self !! l = Some d → deref l self = d.
Proof. unfold deref. by intros ->. Qed.

(** A mutation of one dict leaves every other dict as it is. *)
Lemma deref_mutate_other l l' m self :
  l ≠ l' → deref l' (mutate l m self) = deref l' self.
Proof.
  intros Hne. unfold deref. destruct m; simpl; by rewrite list_lookup_insert_ne.
Qed.

(** A load served from the manager's cache returns a new dict with the
    members of the cached one, which becomes the most recently used
    item. *)
Lemma load_data_hit self now filename cached e j :
  TTLCache.holds (load_key filename) cached e j (cache self) → now < e →
  ∃ c, TTLCache.holds (load_key filename) cached e 0 c
       ∧ load_data now filename self
         = (length (heap self),
            Mk (data_dir self) (max_file_size self) (file_cache self) c
               (heap self ++ [deref cached self]) (disk self)).
Proof.
  intros Hh Hnow. unfold AsyncDatabaseManager.load_data.
  rewrite (holds_contains _ _ _ _ _ _ Hh Hnow).
  destruct (holds_getitem _ _ _ _ _ _ Hh Hnow) as (Hr & Hh' & _).
  destruct (TTLCache.getitem now (cache self) (load_key filename)) as [o c].
  simpl in Hr, Hh'. subst o. exists c. split; done.
Qed.

(** A save that succeeds has written the file and cached a new dict
    with the members of the one it was given. *)
Lemma save_data_success e fault now timestamp filename data self :
  (save_data e fault now timestamp filename data self).1 = true →
  ∃ written,
    _write_file_async e fault (join (data_dir self) filename) (deref data self) (disk self)
    = (true, written)
    ∧ save_data e fault now timestamp filename data self
      = (true,
         Mk (data_dir self) (max_file_size self) (file_cache self)
            (TTLCache.setitem now (cache self) (load_key filename) (length (heap self)))
            (heap self ++ [deref data self]) written).
Proof.
  unfold save_data.
  destruct (max_file_size self <? _); [done|].
  destruct (_write_file_async e fault _ _ _) as [[] written]; [|done].
  intros _. exists written. done.
Qed.

(** A save of a document above the size limit writes that document to
    the archive and nothing else. *)
Lemma save_data_oversized e fault now timestamp filename data self :
  max_file_size self < Json.size (Json.dumps_default (deref data self)) →
  save_data e fault now timestamp filename data self
  = (false,
     set_disk
       (_write_file_async e fault
          (join (join (data_dir self) "archives")
                (replace ".json" EmptyString filename ++ "_archive_" ++ timestamp ++ ".json")%string)
          (deref data self) (disk self)).2
       self).
Proof.
  intros Hbig. unfold save_data. by rewrite (proj2 (Z.ltb_lt _ _) Hbig).
Qed.

(** C9. A save that gets to the write and returns [False] leaves no
    temporary file (the path of the document followed by [.tmp]) on the
    disk, whichever disk call failed. *)
Theorem failed_save_leaves_no_temp e fault now timestamp filename data self :
  Json.size (Json.dumps_default (deref data self)) ≤ max_file_size self →
  (save_data e fault now timestamp filename data self).1 = false →
  disk (save_data e fault now timestamp filename data self).2
    !! temp_path (join (data_dir self) filename) = None.
Proof.
  intros Hsize. unfold save_data.
  rewrite (proj2 (Z.ltb_ge _ _) Hsize).
  pose proof (failed_write_removes_temp e fault (join (data_dir self) filename)
                (deref data self) (disk self)) as Hw.
  destruct (_write_file_async e fault _ _ _) as [[] written]; [done|].
  simpl in *. auto.
Qed.

End Manager_facts.


(** Witness of C9: the write of the second users document fails after
    the temporary file has been created. *)
Lemma failed_save_leaves_no_temp_witness :
  let self := ManagerSample.manager 64 [UsersSample.second] in
  let saved :=
    AsyncDatabaseManager.save_data ManagerSample.posix (Some 1%nat) 100
      "20250101_120000" "users.json" 0%nat self in
  saved.1 = false
  ∧ AsyncDatabaseManager.disk saved.2 !! "data/users.json.tmp" = None.
Proof.
  split; [reflexivity|].
  apply (failed_save_leaves_no_temp ManagerSample.posix (Some 1%nat) 100
           "20250101_120000" "users.json" 0%nat
           (ManagerSample.manager 64 [UsersSample.second])).
  - apply Z.leb_le. reflexivity.
  - reflexivity.
Defined.

(** C4, at an input on which the code departs from it. The first users
    document is on the disk; the second one, whose text is above the size
    limit of the manager, is saved. The save returns [False] and leaves
    [data/users.json] as it was, but the archive file it writes holds the
    document that was to be saved, not the previous one. *)
Theorem oversized_save_archives_new_document :
  let self := ManagerSample.manager 30 [UsersSample.second] in
  let saved :=
    AsyncDatabaseManager.save_data ManagerSample.posix None 100
      "20250101_120000" "users.json" 0%nat self in
  Json.size (Json.dumps_default UsersSample.second) = 40%Z
  ∧ saved.1 = false
  ∧ AsyncDatabaseManager.disk saved.2 !! "data/users.json"
    = Some (FileSystem.File (Json.dumps_indented UsersSample.first) 5)
  ∧ AsyncDatabaseManager.disk saved.2 !! "data/archives/users_archive_20250101_120000.json"
    = Some (FileSystem.File (Json.dumps_indented UsersSample.second) 9)
  ∧ Json.dumps_indented UsersSample.second ≠ Json.dumps_indented UsersSample.first
  ∧ AsyncDatabaseManager.cache saved.2 = AsyncDatabaseManager.cache self.
Proof. vm_compute. repeat split; try reflexivity. discriminate. Qed.

Section Manager_cache.
Import FileSystem HighPerformanceFileHandler AsyncDatabaseManager.
Local Open Scope list_scope.
Local Open Scope Z_scope.
Variable json_loads : string → option Json.dict.
Implicit Types (self : AsyncDatabaseManager.t) (d : Json.dict) (l : loc).

Local Abbreviation load_data := (load_data json_loads).

(** A load that is not served from the manager's cache, of a file above
    the size limit, returns a new empty dict and caches a new empty
    dict. *)
Lemma load_data_too_large self now filename f :
  TTLCache.contains now (cache self) (load_key filename) = false →
  disk self !! join (data_dir self) filename = Some f →
  max_file_size self < getsize f →
  load_data now filename self
  = (length (heap self),
     Mk (data_dir self) (max_file_size self) (file_cache self)
        (TTLCache.setitem now (cache self) (load_key filename) (S (length (heap self))))
        (heap self ++ [[]] ++ [[]]) (disk self)).
Proof.
  intros Hmiss Hf Hbig. unfold AsyncDatabaseManager.load_data, process_file_async.
  rewrite Hmiss, Hf, (proj2 (Z.ltb_lt _ _) Hbig).
  unfold copy, alloc, deref. simpl.
  rewrite lookup_app_r, Nat.sub_diag by lia. simpl.
  rewrite length_app, <- app_assoc. simpl.
  by replace (length (heap self) + 1)%nat with (S (length (heap self))) by lia.
Qed.

(** X2. Within the time to live of the manager's cache, a load after a
    save that succeeded returns the members of the saved dict. *)
Lemma save_then_load_within_ttl e fault now timestamp filename data self now2 :
  (save_data e fault now timestamp filename data self).1 = true →
  now2 < now + TTLCache.ttl (cache self) →
  let saved := (save_data e fault now timestamp filename data self).2 in
  let loaded := load_data now2 filename saved in
  deref loaded.1 loaded.2 = deref data self.
Proof.
  intros Hok Hnow2. destruct (save_data_success _ _ _ _ _ _ _ Hok) as (written & _ & ->).
  simpl.
  destruct (setitem_holds (load_key filename) (length (heap self)) (cache self) now)
    as (Hh & _).
  match goal with
  | |- context [AsyncDatabaseManager.load_data _ _ _ ?s] =>
    destruct (load_data_hit json_loads s now2 filename _ _ _ Hh Hnow2) as (c & _ & ->)
  end.
  unfold deref. simpl.
  rewrite lookup_app_r, length_app by (rewrite length_app; simpl; lia). simpl.
  replace (length (heap self) + 1 - (length (heap self) + 1))%nat with O by lia. simpl.
  by rewrite lookup_app_r, Nat.sub_diag by lia.
Qed.

(** C5, on the inputs on which the code departs from it. The size that
    [save_data] checks is that of the compact text, the file it writes
    TTLCache.holds the indented text, which is longer, and a load refuses a file
    above the limit. For a document whose compact text is within the
    limit and whose indented text is above it, the save succeeds and
    writes the file; once the time to live of the cached copy has passed,
    a load returns an empty document and caches an empty document. *)
Theorem save_then_late_load_is_empty e now timestamp filename data self now2 :
  Json.size (Json.dumps_default (deref data self)) ≤ max_file_size self →
  max_file_size self < Json.size (Json.dumps_indented (deref data self)) →
  now + TTLCache.ttl (cache self) ≤ now2 →
  let saved := save_data e None now timestamp filename data self in
  let loaded := load_data now2 filename saved.2 in
  saved.1 = true
  ∧ disk saved.2 !! join (data_dir self) filename
    = Some (File (Json.dumps_indented (deref data self)) (stamp e))
  ∧ deref loaded.1 loaded.2 = []
  ∧ ∃ cached,
      TTLCache.holds (load_key filename) cached (now2 + TTLCache.ttl (cache self)) 0 (cache loaded.2)
      ∧ deref cached loaded.2 = [].
Proof.
  intros Hsize Hbig Hlate saved loaded. subst loaded saved.
  assert ((save_data e None now timestamp filename data self).1 = true) as Hok.
  { unfold save_data. rewrite (proj2 (Z.ltb_ge _ _) Hsize), write_without_fault. done. }
  destruct (save_data_success _ _ _ _ _ _ _ Hok) as (written & Hw & ->).
  rewrite write_without_fault in Hw. injection Hw as <-.
  simpl.
  destruct (setitem_holds (load_key filename) (length (heap self)) (cache self) now)
    as (Hh & _ & Httl).
  split; [done|]. split; [by rewrite lookup_insert_eq|].
  erewrite load_data_too_large; simpl.
  - split.
    + unfold deref. simpl. rewrite length_app. simpl.
      rewrite lookup_app_r by (rewrite length_app; simpl; lia).
      rewrite length_app. simpl.
      by replace (length (heap self) + 1 - (length (heap self) + 1))%nat with O by lia.
    + exists (S (length (heap self ++ [deref data self]))).
      destruct (setitem_holds (load_key filename) (S (length (heap self ++ [deref data self])))
                  (TTLCache.setitem now (cache self) (load_key filename) (length (heap self)))
                  now2) as (Hh2 & _).
      rewrite Httl in Hh2.
      split; [exact Hh2|].
      unfold deref. simpl.
      rewrite lookup_app_r by lia.
      match goal with
      | |- context [(S ?n - ?n)%nat] => replace (S n - n)%nat with 1%nat by lia
      end.
      done.
  - by apply (holds_expired _ _ _ _ _ _ Hh).
  - simpl. by rewrite lookup_insert_eq.
  - done.
Qed.

End Manager_cache.

(** Witness of C5: the first users document (20 bytes compact, 30 bytes
    indented) saved through a manager whose limit is 25 bytes, and loaded
    60 time units later. *)
Lemma save_then_late_load_is_empty_witness :
  let self := ManagerSample.manager 25 [UsersSample.first] in
  let saved :=
    AsyncDatabaseManager.save_data ManagerSample.posix None 100
      "20250101_120000" "users.json" 0%nat self in
  let loaded := AsyncDatabaseManager.load_data (λ _, None) 160 "users.json" saved.2 in
  saved.1 = true
  ∧ AsyncDatabaseManager.disk saved.2 !! "data/users.json"
    = Some (FileSystem.File (Json.dumps_indented UsersSample.first) 9)
  ∧ AsyncDatabaseManager.deref loaded.1 loaded.2 = [].
Proof.
  destruct (save_then_late_load_is_empty (λ _, None) ManagerSample.posix 100
              "20250101_120000" "users.json" 0%nat
              (ManagerSample.manager 25 [UsersSample.first]) 160)
    as (Hsaved & Hdisk & Hloaded & _).
  - apply Z.leb_le. reflexivity.
  - apply Z.ltb_lt. reflexivity.
  - apply Z.leb_le. reflexivity.
  - split; [exact Hsaved|]. split; [exact Hdisk|exact Hloaded].
Defined.

Section Manager_copies.
Import FileSystem HighPerformanceFileHandler AsyncDatabaseManager.
Local Open Scope list_scope.
Local Open Scope Z_scope.
Variable json_loads : string → option Json.dict.
Implicit Types (self : AsyncDatabaseManager.t) (d : Json.dict) (l : loc).

Local Abbreviation load_data := (load_data json_loads).

(** C8. (1) A load served from the manager's cache returns a new dict
    with the members of the cached one: whatever key the caller then
    adds, binds anew or removes at the top level of the returned dict, no
    other dict changes, the cached dict keeps its members, and a later
    load served from the cache returns these members again. (2) A save that succeeds caches a
    new dict with the members of the dict it was given: whatever the
    caller then changes at the top level of its own dict, the cached dict
    keeps the saved members, and so does what a later load served from
    the cache returns. *)
Theorem cached_documents_are_copies :
  (∀ self now now2 filename cached e j d m,
     TTLCache.holds (load_key filename) cached e j (cache self) →
     heap self !! cached = Some d →
     now < e → now2 < e →
     let loaded := load_data now filename self in
     let mutated := mutate loaded.1 m loaded.2 in
     let again := load_data now2 filename mutated in
     loaded.1 ≠ cached
     ∧ heap self !! loaded.1 = None
     ∧ deref loaded.1 loaded.2 = d
     ∧ (∀ l, l ≠ loaded.1 → deref l mutated = deref l loaded.2)
     ∧ deref cached mutated = d
     ∧ deref again.1 again.2 = d)
  ∧
  (∀ self env fault now now2 timestamp filename data d m,
     heap self !! data = Some d →
     (save_data env fault now timestamp filename data self).1 = true →
     now2 < now + TTLCache.ttl (cache self) →
     let saved := (save_data env fault now timestamp filename data self).2 in
     let mutated := mutate data m saved in
     let again := load_data now2 filename mutated in
     ∃ cached,
       TTLCache.holds (load_key filename) cached (now + TTLCache.ttl (cache self)) 0 (cache saved)
       ∧ cached ≠ data
       ∧ heap self !! cached = None
       ∧ deref cached saved = d
       ∧ deref cached mutated = d
       ∧ deref again.1 again.2 = d).
Proof.
  split.
  - intros self now now2 filename cached e j d m Hh Hd Hnow Hnow2 loaded mutated again.
    subst again mutated loaded.
    destruct (load_data_hit json_loads self now filename cached e j Hh Hnow) as (c & Hc & ->).
    simpl. pose proof (lookup_lt_Some _ _ _ Hd) as Hlt.
    assert (length (heap self) ≠ cached) as Hne by lia.
    set (s1 := Mk _ _ _ c _ _).
    assert (deref cached s1 = d) as Hd1.
    { unfold deref. simpl. by rewrite lookup_app_l, Hd by done. }
    assert (deref cached (mutate (length (heap self)) m s1) = d) as Hd2.
    { by rewrite deref_mutate_other. }
    split; [done|]. split; [by apply lookup_ge_None|].
    split. { unfold deref. simpl. rewrite lookup_app_r, Nat.sub_diag by lia.
             simpl. by apply deref_lookup. }
    split. { intros l Hl. by apply deref_mutate_other. }
    split; [done|].
    assert (cache (mutate (length (heap self)) m s1) = c) as Hcache by by destruct m.
    rewrite <- Hcache in Hc.
    destruct (load_data_hit json_loads _ now2 filename cached e 0 Hc Hnow2) as (c' & _ & ->).
    unfold deref at 1. simpl. rewrite lookup_app_r, Nat.sub_diag by lia. simpl.
    exact Hd2.
  - intros self env fault now now2 timestamp filename data d m Hd Hok Hnow2 saved mutated again.
    subst again mutated saved.
    destruct (save_data_success _ _ _ _ _ _ _ Hok) as (written & _ & ->). simpl.
    pose proof (lookup_lt_Some _ _ _ Hd) as Hlt.
    destruct (setitem_holds (load_key filename) (length (heap self)) (cache self) now)
      as (Hh & _).
    set (s1 := Mk _ _ _ _ _ written).
    assert (deref (length (heap self)) s1 = d) as Hd1.
    { unfold deref. simpl. rewrite lookup_app_r, Nat.sub_diag by lia. simpl.
      by apply deref_lookup. }
    assert (deref (length (heap self)) (mutate data m s1) = d) as Hd2.
    { rewrite deref_mutate_other by lia. done. }
    exists (length (heap self)).
    split; [exact Hh|]. split; [lia|]. split; [by apply lookup_ge_None|].
    split; [done|]. split; [done|].
    assert (cache (mutate data m s1)
            = TTLCache.setitem now (cache self) (load_key filename) (length (heap self)))
      as Hcache by by destruct m.
    rewrite <- Hcache in Hh.
    destruct (load_data_hit json_loads _ now2 filename _ _ 0 Hh Hnow2) as (c' & _ & ->).
    unfold deref at 1. simpl. rewrite lookup_app_r, Nat.sub_diag by lia. simpl.
    exact Hd2.
Qed.

End Manager_copies.

(** Witness of C8: the first users document is cached until time 160; a
    load at time 110 is served from the cache, the caller adds user 2 to
    the dict it got, and a load at time 120 still returns the first
    document. *)
Lemma cached_documents_are_copies_witness :
  let self :=
    AsyncDatabaseManager.Mk "data" (50 * 1024 * 1024) (TTLCache.create 1000 300)
      (TTLCache.Mk 500 60 [TTLCache.Link "load:users.json" 0%nat 160])
      [UsersSample.first] UsersSample.disk in
  let loaded := AsyncDatabaseManager.load_data (λ _, None) 110 "users.json" self in
  let mutated :=
    AsyncDatabaseManager.mutate loaded.1
      (AsyncDatabaseManager.SetItem "2" (Json.Obj [("name", Json.Str "B")])) loaded.2 in
  let again := AsyncDatabaseManager.load_data (λ _, None) 120 "users.json" mutated in
  AsyncDatabaseManager.deref loaded.1 mutated = UsersSample.second
  ∧ loaded.1 ≠ 0%nat
  ∧ AsyncDatabaseManager.deref 0%nat mutated = UsersSample.first
  ∧ AsyncDatabaseManager.deref again.1 again.2 = UsersSample.first.
Proof.
  intros self loaded mutated again.
  destruct (proj1 (cached_documents_are_copies (λ _, None))
              self 110%Z 120%Z "users.json" 0%nat 160%Z 0%nat UsersSample.first
              (AsyncDatabaseManager.SetItem "2" (Json.Obj [("name", Json.Str "B")])))
    as (Hne & _ & _ & _ & Hcached & Hagain).
  - exists [], []. split; [reflexivity|].
    split; [apply not_elem_of_nil|]. split; [apply not_elem_of_nil|]. simpl. lia.
  - reflexivity.
  - lia.
  - lia.
  - split; [reflexivity|]. split; [exact Hne|]. split; [exact Hcached|exact Hagain].
Defined.

(** ** Instances of the further properties *)

(** Witness of X1: the process dies after the temporary file of the
    second users document has been created. *)
Lemma posix_crash_atomic_witness :
  HighPerformanceFileHandler.crashed ManagerSample.posix 1 "data/users.json"
    UsersSample.second UsersSample.disk !! "data/users.json"
  = UsersSample.disk !! "data/users.json"
  ∨ HighPerformanceFileHandler.crashed ManagerSample.posix 1 "data/users.json"
      UsersSample.second UsersSample.disk !! "data/users.json"
    = Some (FileSystem.File (Json.dumps_indented UsersSample.second) 9).
Proof.
  apply (posix_crash_atomic ManagerSample.posix 1 "data/users.json"
           UsersSample.second UsersSample.disk).
  reflexivity.
Defined.

(** Witness of X2: the second users document is saved at time 100 and
    loaded at time 130. *)
Lemma save_then_load_within_ttl_witness :
  let self := ManagerSample.manager (50 * 1024 * 1024) [UsersSample.second] in
  let saved :=
    (AsyncDatabaseManager.save_data ManagerSample.posix None 100
       "20250101_120000" "users.json" 0%nat self).2 in
  let loaded := AsyncDatabaseManager.load_data (λ _, None) 130 "users.json" saved in
  AsyncDatabaseManager.deref loaded.1 loaded.2 = UsersSample.second.
Proof.
  apply (save_then_load_within_ttl (λ _, None) ManagerSample.posix None 100
           "20250101_120000" "users.json" 0%nat
           (ManagerSample.manager (50 * 1024 * 1024) [UsersSample.second]) 130).
  - reflexivity.
  - simpl. lia.
Defined.

(** Witness of X3: 126 items on eight CPUs, the second chunk first. *)
Lemma process_data_parallel_length_witness :
  length (MultiCoreDataProcessor.process_data_parallel (λ x : nat, Some (S x))
            (MultiCoreDataProcessor.init (Some 8)) [1; 0] (seq 0 126))
  = length (seq 0 126).
Proof.
  apply (process_data_parallel_length (MultiCoreDataProcessor.init (Some 8)) S
           (seq 0 126) [1; 0]).
  - vm_compute. lia.
  - vm_compute. apply perm_swap.
Defined.

(** Witness of X4: the first message put into the queue of a new
    handler. *)
Lemma add_to_queue_bounded_witness :
  let self := AsyncBotHandler.init (Payload := nat) 0 in
  ∃ self',
    AsyncBotHandler.add_to_queue AsyncBotHandler.Message self 7 = Queue.Done (true, self')
    ∧ (Queue.qsize (AsyncBotHandler.message_queue self')
       ≤ Queue.maxsize (AsyncBotHandler.message_queue self'))%Z.
Proof.
  intros self. eexists. split; [reflexivity|].
  apply (add_to_queue_bounded AsyncBotHandler.Message self 7 true _).
  - reflexivity.
  - simpl. unfold Queue.qsize. simpl. lia.
  - reflexivity.
Defined.

(* ===================================================================== *)
(** * Further properties *)
(* ===================================================================== *)

(** ** Queues and workers *)

Section Worker_order.
Import Queue AsyncBotHandler.
Local Open Scope list_scope.
Context {Payload : Type}.
Implicit Types (self : AsyncBotHandler.t Payload) (k : kind).

(** X6. A worker of kind [k] whose queue holds the items [l], the
    processing of each of which returns, takes them in queue order,
    counts each one (the message and the file worker; the callback worker
    has no counter), counts no error, logs nothing, leaves the queues of
    the other kinds alone and is then parked on its empty queue. *)
Theorem worker_processes_in_order (process : kind → Payload → handler_result)
    k self (l : list Payload) (turns : nat) :
  items (queue_of k self) = l →
  (Z.of_nat (length l) ≤ unfinished_tasks (queue_of k self))%Z →
  Forall (λ y, process k y = Returned) l →
  length l < turns →
  ∃ self',
    worker process k turns self = Idle self'
    ∧ items (queue_of k self') = []
    ∧ handled self' = handled self ++ (pair k <$> l)
    ∧ errors (stats self') = errors (stats self)
    ∧ log self' = log self
    ∧ messages_processed (stats self')
      = (messages_processed (stats self)
         + match k with Message => Z.of_nat (length l) | _ => 0 end)%Z
    ∧ files_processed (stats self')
      = (files_processed (stats self)
         + match k with File => Z.of_nat (length l) | _ => 0 end)%Z
    ∧ unfinished_tasks (queue_of k self')
      = (unfinished_tasks (queue_of k self) - Z.of_nat (length l))%Z
    ∧ ∀ k', k' ≠ k → queue_of k' self' = queue_of k' self.
Proof.
  intros Hi Hu Hall Hturns.
  destruct (Nat.le_exists_sub (length l + 1) turns ltac:(lia)) as (m & -> & _).
  replace (m + (length l + 1)) with (length l + S m) by lia.
  destruct (worker_returned_items process k l self [] (S m)) as (s1 & -> & P1);
    [by rewrite app_nil_r|done|done|].
  destruct P1 as [Hit Hun Hoth Hhandled Hlog Herrors Hmessages Hfiles].
  assert (items (queue_of k s1) = []) as Hi1.
  { rewrite Hi in Hit. rewrite <- (app_nil_r l) in Hit at 1.
    by apply app_inv_head in Hit. }
  exists s1. cbn [worker]. rewrite (worker_turn_empty process k s1 Hi1).
  repeat split; try done; try lia.
  by rewrite Hlog, app_nil_r.
Qed.

(** X7. When the processing of the first queued item raises the
    cancellation of the task, the worker leaves its loop at once: the
    item has been taken from the queue and is counted neither as
    processed nor as an error, and the items behind it stay queued. *)
Theorem worker_cancelled_ends (process : kind → Payload → handler_result)
    k self (x : Payload) (rest : list Payload) (turns : nat) :
  items (queue_of k self) = x :: rest →
  process k x = Raised CancelledError →
  0 < turns →
  ∃ self',
    worker process k turns self = Ended self'
    ∧ items (queue_of k self') = rest
    ∧ handled self' = handled self ++ [(k, x)]
    ∧ stats self' = stats self
    ∧ log self' = log self
    ∧ unfinished_tasks (queue_of k self') = unfinished_tasks (queue_of k self).
Proof.
  intros Hi Hx Hturns. destruct turns as [|n]; [lia|].
  cbn [worker]. unfold worker_turn, get. rewrite Hi, Hx. cbn [on_raise].
  eexists. split; [reflexivity|].
  destruct k; simpl; rewrite ?Hi; done.
Qed.

(** Messages put into a queue with room for them are all accepted and
    go behind the items already there, in the order of the calls. *)
Lemma enqueue_all_appends (ms : list Payload) : ∀ self,
  ((maxsize (message_queue self) ≤ 0)%Z
   ∨ (qsize (message_queue self) + Z.of_nat (length ms) ≤ maxsize (message_queue self))%Z) →
  enqueue_all self ms
  = (replicate (length ms) true,
     Some (set_queue Message
             (Queue.Mk (maxsize (message_queue self))
                (items (message_queue self) ++ ms)
                (unfinished_tasks (message_queue self) + Z.of_nat (length ms)))
             self)).
Proof.
  induction ms as [|m ms IH]; intros self Hroom.
  - simpl. rewrite app_nil_r, Z.add_0_r. by destruct self as [[] ? ? ? ? ?].
  - cbn [enqueue_all]. unfold add_message_to_queue, add_to_queue, put, put_nowait, full.
    cbn [queue_of].
    assert ((if (maxsize (message_queue self) <=? 0)%Z then false
             else (maxsize (message_queue self) <=? qsize (message_queue self))%Z) = false)
      as ->.
    { destruct (Z.leb_spec (maxsize (message_queue self)) 0); [done|].
      apply Z.leb_gt. destruct Hroom as [?|Hroom]; [lia|].
      simpl in Hroom. lia. }
    rewrite IH.
    + simpl. rewrite <- app_assoc. simpl.
      replace (unfinished_tasks (message_queue self) + 1 + Z.of_nat (length ms))%Z
        with (unfinished_tasks (message_queue self) + Z.of_nat (S (length ms)))%Z by lia.
      done.
    + simpl. destruct Hroom as [?|Hroom]; [by left|right].
      unfold qsize in *. simpl in *. rewrite length_app. simpl. lia.
Qed.

(** X8. Into a new handler as many messages are put as its message
    queue has room for or fewer; every call returns [True]. The message
    worker, when the processing of each message returns, then processes
    them in the order in which they were put and counts each. *)
Theorem enqueued_messages_processed_in_order (process : kind → Payload → handler_result)
    (start : Q) (ms : list Payload) (turns : nat) :
  (Z.of_nat (length ms) ≤ 1000)%Z →
  Forall (λ y, process Message y = Returned) ms →
  length ms < turns →
  ∃ queued self',
    enqueue_all (init start) ms = (replicate (length ms) true, Some queued)
    ∧ items (message_queue queued) = ms
    ∧ _message_worker process turns queued = Idle self'
    ∧ handled self' = pair Message <$> ms
    ∧ messages_processed (stats self') = Z.of_nat (length ms)
    ∧ errors (stats self') = 0%Z
    ∧ items (message_queue self') = []
    ∧ unfinished_tasks (message_queue self') = 0%Z.
Proof.
  intros Hroom Hall Hturns.
  set (queued := set_queue Message (Queue.Mk 1000 ms (Z.of_nat (length ms))) (init start)).
  assert (enqueue_all (init start) ms = (replicate (length ms) true, Some queued)) as Henq.
  { rewrite (enqueue_all_appends ms (init start)); [done|].
    right. simpl. unfold qsize. simpl. lia. }
  destruct (worker_returned_items process Message ms queued [] (turns - length ms))
    as (s1 & Hrun & P1); [by rewrite app_nil_r|simpl; lia|done|].
  replace (length ms + (turns - length ms)) with turns in Hrun by lia.
  destruct P1 as [Hit Hun _ Hhandled _ Herrors Hmessages _].
  assert (items (queue_of Message s1) = []) as Hi1.
  { simpl in Hit. rewrite <- (app_nil_r ms) in Hit at 1. by apply app_inv_head in Hit. }
  exists queued, s1. split; [done|]. split; [done|].
  split.
  { unfold _message_worker. rewrite Hrun.
    destruct (turns - length ms) as [|n] eqn:Hn; [lia|].
    cbn [worker]. by rewrite (worker_turn_empty process Message s1 Hi1). }
  simpl in *. repeat split; try done; lia.
Qed.

End Worker_order.

(** ** The memo cache of [async_cached] *)

Section TTLCache_bounds.
Import TTLCache.
Local Open Scope list_scope.
Local Open Scope Z_scope.
Context {K V : Type} `{EqDecision K}.
Implicit Types (c : TTLCache.t K V) (l : list (link K V)) (k : K).

Lemma without_shorter k l a : find k l = Some a → (length (without k l) < length l)%nat.
Proof.
  unfold find, without. induction l as [|b l IH]; [done|]. simpl.
  case_bool_decide as Hk; simpl.
  - intros _. pose proof (length_filter_le (λ e, negb (bool_decide (key e = k))) l). lia.
  - intros Hf. specialize (IH Hf). lia.
Qed.

Lemma getitem_length c k now :
  (length (links (getitem now c k).2) ≤ length (links c))%nat
  ∧ maxsize (getitem now c k).2 = maxsize c.
Proof.
  unfold getitem. destruct (find k (links c)) as [a|] eqn:Hf; simpl; [|done].
  split; [|done]. rewrite length_app. simpl.
  pose proof (without_shorter k (links c) a Hf). lia.
Qed.

Lemma setitem_length c k (v : V) now :
  (0 < maxsize c)%nat → (length (links c) ≤ maxsize c)%nat →
  (length (links (setitem now c k v)) ≤ maxsize c)%nat
  ∧ maxsize (setitem now c k v) = maxsize c.
Proof.
  intros Hpos Hlen. unfold setitem.
  pose proof (length_filter_le (live now) (links c)) as Hexp. fold (expire now (links c)) in Hexp.
  destruct (find k (expire now (links c))) as [a|] eqn:Hf; simpl.
  - split; [|done]. rewrite length_app. simpl.
    pose proof (without_shorter k _ a Hf). lia.
  - split; [|done]. rewrite length_app, length_drop. simpl. lia.
Qed.

(** Every item of the key [k] is due by [e]. *)
Local Abbreviation due_by k e l := (Forall (λ a : link K V, key a = k → expires a ≤ e) l).

Lemma due_filter k e (f : link K V → bool) l : due_by k e l → due_by k e (List.filter f l).
Proof.
  rewrite !Forall_forall. intros Hall a Ha.
  apply list_elem_of_In, List.filter_In in Ha as [Ha _]. apply Hall. by apply list_elem_of_In.
Qed.

Lemma due_getitem k k' e c now :
  due_by k e (links c) → due_by k e (links (getitem now c k').2).
Proof.
  intros Hdue. unfold getitem. destruct (find k' (links c)) as [a|] eqn:Hf; simpl; [|done].
  apply Forall_app. split; [by apply due_filter|].
  apply Forall_singleton. apply find_present in Hf as [_ Ha].
  rewrite Forall_forall in Hdue. by apply Hdue.
Qed.

Lemma due_setitem_other k k' e c (v : V) now :
  k' ≠ k → due_by k e (links c) → due_by k e (links (setitem now c k' v)).
Proof.
  intros Hne Hdue. unfold setitem.
  assert (due_by k e (expire now (links c))) as Hexp by by apply due_filter.
  assert (due_by k e [Link k' v (now + ttl c)]) as Hnew.
  { apply Forall_singleton. simpl. done. }
  destruct (find k' (expire now (links c))); simpl; apply Forall_app; split; try done.
  - by apply due_filter.
  - by apply Forall_drop.
Qed.

Lemma due_setitem k c (v : V) now : due_by k (now + ttl c) (links (setitem now c k v)).
Proof.
  destruct (setitem_holds k v c now) as ((pre & post & -> & Hpre & Hpost & _) & _).
  apply Forall_app. split; [|apply Forall_cons; split; [done|]].
  - apply Forall_forall. intros a Ha Hk. exfalso. apply Hpre.
    apply list_elem_of_fmap. by exists a.
  - apply Forall_forall. intros a Ha Hk. exfalso. apply Hpost.
    apply list_elem_of_fmap. by exists a.
Qed.

Lemma due_not_contained k e c now :
  due_by k e (links c) → e ≤ now → contains now c k = false.
Proof.
  intros Hdue Hnow. unfold contains.
  destruct (find k (links c)) as [a|] eqn:Hf; [|done].
  apply find_present in Hf as [Hk Ha]. rewrite Forall_forall in Hdue.
  specialize (Hdue a Ha Hk). unfold live. apply Z.ltb_ge. lia.
Qed.

End TTLCache_bounds.

Section AsyncCached_more.
Import AsyncCached.
Local Open Scope list_scope.
Local Open Scope Z_scope.
Context {Args R W : Type}.
Variable str_args : Args → string.
Variable hash : string → Z.
Variable func_name : string.
Variable func : Args → W → R * W.

Local Abbreviation wrapper := (wrapper str_args hash func_name func).
Local Abbreviation calls := (calls str_args hash func_name func).
Local Abbreviation cache_key := (cache_key str_args hash func_name).

Implicit Types (self : AsyncCached.t Args R W) (args : Args).

Lemma wrapper_length now later args self :
  (0 < TTLCache.maxsize (cache self))%nat →
  (length (TTLCache.links (cache self)) ≤ TTLCache.maxsize (cache self))%nat →
  (length (TTLCache.links (cache (wrapper now later args self).2))
   ≤ TTLCache.maxsize (cache self))%nat
  ∧ TTLCache.maxsize (cache (wrapper now later args self).2) = TTLCache.maxsize (cache self).
Proof.
  intros Hpos Hlen.
  destruct (TTLCache.contains now (cache self) (cache_key args)) eqn:Hc.
  - destruct (wrapper_hit str_args hash func_name func now later args self Hc)
      as (r & _ & ->). simpl.
    destruct (getitem_length (cache self) (cache_key args) now). split; [lia|done].
  - rewrite (wrapper_miss str_args hash func_name func now later args self Hc). simpl.
    by apply setitem_length.
Qed.

Lemma calls_length (cs : list (Z * Z * Args)) : ∀ self,
  (0 < TTLCache.maxsize (cache self))%nat →
  (length (TTLCache.links (cache self)) ≤ TTLCache.maxsize (cache self))%nat →
  (length (TTLCache.links (cache (calls cs self))) ≤ TTLCache.maxsize (cache self))%nat.
Proof.
  induction cs as [|[[now later] args] cs IH]; intros self Hpos Hlen; [done|].
  destruct (wrapper_length now later args self Hpos Hlen) as [Hlen' Hmax].
  simpl. rewrite <- Hmax. apply IH; lia.
Qed.

(** X10. Whatever calls are made to a decorated coroutine, at whatever
    times, its cache never holds more than 100 results. *)
Theorem memo_cache_bounded (ttl : Z) (w : W) (cs : list (Z * Z * Args)) :
  (length (TTLCache.links (cache (calls cs (decorate ttl w)))) ≤ 100)%nat.
Proof. apply (calls_length cs (decorate ttl w)); simpl; lia. Qed.

Lemma calls_due k e (cs : list (Z * Z * Args)) : ∀ self,
  Forall (λ c, cache_key c.2 ≠ k) cs →
  Forall (λ a, TTLCache.key a = k → TTLCache.expires a ≤ e) (TTLCache.links (cache self)) →
  Forall (λ a, TTLCache.key a = k → TTLCache.expires a ≤ e)
         (TTLCache.links (cache (calls cs self))).
Proof.
  induction cs as [|[[now later] args] cs IH]; intros self Hall Hdue; [done|].
  apply Forall_cons in Hall as [Hne Hall]. simpl in Hne. simpl. apply IH; [done|].
  destruct (TTLCache.contains now (cache self) (cache_key args)) eqn:Hc.
  - destruct (wrapper_hit str_args hash func_name func now later args self Hc)
      as (r & _ & ->). simpl. by apply due_getitem.
  - rewrite (wrapper_miss str_args hash func_name func now later args self Hc). simpl.
    by apply due_setitem_other.
Qed.

(** X9. A call of the decorated coroutine misses the cache and its
    result is stored at time [t1']. Calls with other keys follow. A call
    whose arguments print as the same string, made at [t1' + ttl] or
    later, is not served from the cache: the wrapped coroutine runs
    again, on the new arguments. *)
Theorem cached_call_repeated_after_ttl self args args' (t1 t1' t2 t2' : Z)
    (between : list (Z * Z * Args)) :
  str_args args = str_args args' →
  TTLCache.contains t1 (cache self) (cache_key args) = false →
  Forall (λ c, cache_key c.2 ≠ cache_key args) between →
  t1' + TTLCache.ttl (cache self) ≤ t2 →
  let first := wrapper t1 t1' args self in
  let before_second := calls between first.2 in
  let second := wrapper t2 t2' args' before_second in
  runs second.2 = runs before_second ++ [args']
  ∧ second.1 = (func args' (world before_second)).1
  ∧ world second.2 = (func args' (world before_second)).2.
Proof.
  intros Hstr Hmiss Hbetween Hlate first before_second second.
  subst second before_second first.
  rewrite (wrapper_miss str_args hash func_name func t1 t1' args self Hmiss). simpl.
  set (s1 := Mk _ _ _).
  assert (cache_key args' = cache_key args) as Hk.
  { unfold AsyncCached.cache_key. by rewrite Hstr. }
  pose proof (calls_due (cache_key args) (t1' + TTLCache.ttl (cache self)) between s1
                Hbetween (due_setitem _ _ _ _)) as Hdue.
  pose proof (due_not_contained _ _ _ t2 Hdue Hlate) as Hc. rewrite <- Hk in Hc.
  by rewrite (wrapper_miss str_args hash func_name func t2 t2' args' _ Hc).
Qed.

(** X11. The cache key holds the hash of the printed arguments, not the
    arguments. When the printed arguments of two calls have the same
    hash, the second call, made while the result of the first is live,
    returns the result computed for the arguments of the first, and the
    wrapped coroutine does not run on its own arguments. *)
Theorem colliding_arguments_share_result self args args' (t1 t1' t2 t2' : Z) :
  hash (str_args args) = hash (str_args args') →
  TTLCache.contains t1 (cache self) (cache_key args) = false →
  t2 < t1' + TTLCache.ttl (cache self) →
  let first := wrapper t1 t1' args self in
  let second := wrapper t2 t2' args' first.2 in
  second.1 = (func args (world self)).1
  ∧ runs second.2 = runs self ++ [args]
  ∧ world second.2 = (func args (world self)).2.
Proof.
  intros Hhash Hmiss Ht2 first second. subst second first.
  rewrite (wrapper_miss str_args hash func_name func t1 t1' args self Hmiss). simpl.
  destruct (setitem_holds (cache_key args) (func args (world self)).1 (cache self) t1')
    as (Hh & _).
  assert (cache_key args' = cache_key args) as Hk.
  { unfold AsyncCached.cache_key. by rewrite Hhash. }
  set (s1 := Mk _ _ _).
  destruct (wrapper_keeps_same str_args hash func_name func _ _ _ _ t2 t2' args' s1 Hh Ht2 Hk)
    as (? & ? & ? & _).
  done.
Qed.

Local Abbreviation wrapper_at := (wrapper_at str_args hash func_name func).

(** With one reading of the timer for the test and the read, the call
    returns, and [wrapper] says what. *)
Lemma wrapper_at_one_reading now later args self :
  wrapper_at now now later args self
  = (Some (wrapper now later args self).1, (wrapper now later args self).2).
Proof.
  unfold AsyncCached.wrapper_at, AsyncCached.wrapper.
  destruct (TTLCache.contains now (cache self) (cache_key args)) eqn:Hc.
  - destruct (contains_getitem _ _ _ Hc) as [r Hr].
    destruct (TTLCache.getitem now _ _) as [o c]. simpl in Hr. by subst o.
  - by destruct (func args (world self)).
Qed.

(** X29. The wrapper tests [cache_key in cache] and then reads
    [cache[cache_key]]. When the cached result is live at the test and
    its time has passed at the read, the read raises [KeyError]: the call
    returns no result, cached or new, and the wrapped coroutine does not
    run. *)
Theorem expired_between_test_and_read_raises self args (r : R) (e : Z) (j : nat)
    (tested read later : Z) :
  TTLCache.holds (cache_key args) r e j (cache self) →
  tested < e →
  e ≤ read →
  (wrapper_at tested read later args self).1 = None
  ∧ runs (wrapper_at tested read later args self).2 = runs self
  ∧ world (wrapper_at tested read later args self).2 = world self.
Proof.
  intros Hh Htested Hread. unfold AsyncCached.wrapper_at.
  rewrite (holds_contains _ _ _ _ _ tested Hh Htested).
  destruct Hh as (pre & post & Hl & Hpre & _ & _).
  unfold TTLCache.getitem.
  rewrite Hl, (find_middle (cache_key args) pre post (TTLCache.Link (cache_key args) r e))
    by done.
  unfold TTLCache.live. cbn [TTLCache.expires].
  by rewrite (proj2 (Z.ltb_ge read e) Hread).
Qed.

End AsyncCached_more.

(** ** Loads and saves of the manager *)

Section Manager_more.
Import FileSystem HighPerformanceFileHandler AsyncDatabaseManager.
Local Open Scope list_scope.
Local Open Scope Z_scope.
Variable json_loads : string → option Json.dict.
Implicit Types (self : AsyncDatabaseManager.t) (d : Json.dict) (l : loc).

Local Abbreviation load_data := (load_data json_loads).
Local Abbreviation _read_file_async := (_read_file_async json_loads).

(** The text that [_write_file_async] writes is never blank. *)
Lemma dumps_indented_not_blank d : Json.blank (Json.dumps_indented d) = false.
Proof. destruct d; reflexivity. Qed.

Lemma lookup_snoc {X} (h : list X) (x : X) : (h ++ [x]) !! length h = Some x.
Proof. by rewrite lookup_app_r, Nat.sub_diag by lia. Qed.

(** A load that neither cache serves, of a file within the size limit
    that holds a document with members: the dict read from the file is
    put into the handler's cache and returned itself; the manager's cache
    gets a copy. *)
Lemma load_data_miss self now filename f :
  TTLCache.contains now (cache self) (load_key filename) = false →
  disk self !! join (data_dir self) filename = Some f →
  getsize f ≤ max_file_size self →
  TTLCache.contains now (file_cache self) (join (data_dir self) filename, "read", mtime f)
  = false →
  _read_file_async (join (data_dir self) filename) self ≠ [] →
  load_data now filename self
  = (length (heap self),
     Mk (data_dir self) (max_file_size self)
        (TTLCache.setitem now (file_cache self)
           (join (data_dir self) filename, "read", mtime f) (length (heap self)))
        (TTLCache.setitem now (cache self) (load_key filename) (S (length (heap self))))
        (heap self ++ [_read_file_async (join (data_dir self) filename) self]
                   ++ [_read_file_async (join (data_dir self) filename) self])
        (disk self)).
Proof.
  intros Hmiss Hf Hsize Hfmiss Hdoc.
  unfold AsyncDatabaseManager.load_data, process_file_async.
  rewrite Hmiss, Hf, (proj2 (Z.ltb_ge _ _) Hsize), Hfmiss.
  set (doc := _read_file_async (join (data_dir self) filename) self) in *.
  unfold copy, alloc, deref. simpl.
  rewrite lookup_snoc. simpl. rewrite bool_decide_false by done. simpl.
  rewrite lookup_snoc. simpl. rewrite length_app, <- app_assoc. simpl.
  by replace (length (heap self) + 1)%nat with (S (length (heap self))) by lia.
Qed.

(** X12. A load that neither cache serves, of a file that does not
    exist, returns an empty document, creates no file, and caches an
    empty document for the time to live of the manager's cache. *)
Theorem load_missing_file_is_empty self now filename :
  TTLCache.contains now (cache self) (load_key filename) = false →
  disk self !! join (data_dir self) filename = None →
  TTLCache.contains now (file_cache self) (join (data_dir self) filename, "read", 0) = false →
  let loaded := load_data now filename self in
  deref loaded.1 loaded.2 = []
  ∧ disk loaded.2 = disk self
  ∧ ∃ cached,
      TTLCache.holds (load_key filename) cached (now + TTLCache.ttl (cache self)) 0
        (cache loaded.2)
      ∧ deref cached loaded.2 = [].
Proof.
  intros Hmiss Hf Hfmiss loaded. subst loaded.
  unfold AsyncDatabaseManager.load_data, process_file_async, AsyncDatabaseManager._read_file_async.
  rewrite Hmiss, Hf.
  destruct (max_file_size self <? 0) eqn:Hmax.
  - unfold copy, alloc, deref. simpl. rewrite lookup_snoc. simpl.
    split; [by rewrite <- app_assoc, lookup_app_r, Nat.sub_diag by lia|].
    split; [done|].
    eexists. split; [apply setitem_holds|]. simpl. by rewrite lookup_snoc.
  - rewrite Hfmiss. unfold copy, alloc, deref. simpl. rewrite lookup_snoc. simpl.
    rewrite lookup_snoc. simpl.
    split.
    { rewrite <- !app_assoc. rewrite (app_assoc (heap self)).
      rewrite lookup_app_r by (rewrite length_app; simpl; lia).
      rewrite length_app. simpl.
      by replace (length (heap self) + 1 - (length (heap self) + 1))%nat with O by lia. }
    split; [done|].
    eexists. split; [apply setitem_holds|]. simpl. by rewrite lookup_snoc.
Qed.

(** X13. A load that neither cache serves returns the very dict that
    it puts into the handler's cache. When the caller changes that dict
    and the manager's cache has expired while the handler's has not, the
    next load of the unchanged file returns the same dict again: the
    caller's changes, not the contents of the file. *)
Theorem load_returns_handler_cached_object self now now2 filename f m :
  TTLCache.contains now (cache self) (load_key filename) = false →
  disk self !! join (data_dir self) filename = Some f →
  getsize f ≤ max_file_size self →
  TTLCache.contains now (file_cache self) (join (data_dir self) filename, "read", mtime f)
  = false →
  _read_file_async (join (data_dir self) filename) self ≠ [] →
  now + TTLCache.ttl (cache self) ≤ now2 →
  now2 < now + TTLCache.ttl (file_cache self) →
  let loaded := load_data now filename self in
  let mutated := mutate loaded.1 m loaded.2 in
  let again := load_data now2 filename mutated in
  deref loaded.1 mutated ≠ [] →
  deref loaded.1 loaded.2 = _read_file_async (join (data_dir self) filename) self
  ∧ again.1 = loaded.1
  ∧ deref again.1 again.2 = deref loaded.1 mutated.
Proof.
  intros Hmiss Hf Hsize Hfmiss Hdoc Hlate Hlive loaded mutated again.
  subst again mutated loaded.
  rewrite (load_data_miss self now filename f Hmiss Hf Hsize Hfmiss Hdoc).
  set (doc := _read_file_async (join (data_dir self) filename) self) in *.
  cbn [fst snd]. intros Hmut.
  set (s1 := Mk _ _ _ _ _ _).
  set (s2 := mutate (length (heap self)) m s1) in *.
  assert (cache s2 = cache s1 ∧ file_cache s2 = file_cache s1 ∧ disk s2 = disk s1
          ∧ data_dir s2 = data_dir s1 ∧ max_file_size s2 = max_file_size s1
          ∧ length (heap s2) = length (heap s1)) as (Hc & Hfc & Hd & Hdir & Hmax & Hlen).
  { unfold s2. destruct m; simpl; rewrite length_insert; done. }
  split. { unfold deref, s1. simpl. by rewrite lookup_app_r, Nat.sub_diag by lia. }
  destruct (setitem_holds (load_key filename) (S (length (heap self))) (cache self) now)
    as (Hh & _).
  destruct (setitem_holds (join (data_dir self) filename, "read", mtime f)
              (length (heap self)) (file_cache self) now) as (Hfh & _).
  assert (TTLCache.contains now2 (cache s1) (load_key filename) = false) as Hc1.
  { apply (holds_expired _ _ _ _ _ now2 Hh Hlate). }
  assert (disk s1 !! join (data_dir s1) filename = Some f) as Hf1 by done.
  assert ((max_file_size s1 <? getsize f) = false) as Hsz by (by apply Z.ltb_ge).
  assert (TTLCache.contains now2 (file_cache s1) (join (data_dir s1) filename, "read", mtime f)
          = true) as Hfc1.
  { apply (holds_contains _ _ _ _ _ now2 Hfh Hlive). }
  assert ((TTLCache.getitem now2 (file_cache s1)
             (join (data_dir s1) filename, "read", mtime f)).1 = Some (length (heap self)))
    as Hget.
  { apply (holds_getitem _ _ _ _ _ now2 Hfh Hlive). }
  unfold AsyncDatabaseManager.load_data, process_file_async.
  rewrite Hc, Hfc, Hd, Hdir, Hmax, Hc1, Hf1, Hsz, Hfc1.
  destruct (TTLCache.getitem now2 _ _) as [o c]. simpl in Hget. subst o.
  assert (∀ fc, deref (length (heap self)) (set_file_cache fc s2) = deref (length (heap self)) s2)
    as Hsame by done.
  rewrite Hsame, bool_decide_false by done.
  unfold copy, alloc. cbn [fst snd]. split; [done|].
  unfold deref. simpl. rewrite lookup_app_l; [done|].
  rewrite Hlen. unfold s1. simpl. rewrite !length_app. simpl. lia.
Qed.

(** X14. A save of a document whose compact text is within the size
    limit, with no failing disk call, returns [True]; afterwards the file
    of the name holds the indented text of the document, there is no
    temporary file, every other file is as it was, and the handler's
    cache is untouched. *)
Theorem save_writes_only_its_file e now timestamp filename data self :
  Json.size (Json.dumps_default (deref data self)) ≤ max_file_size self →
  let saved := save_data e None now timestamp filename data self in
  let path := join (data_dir self) filename in
  saved.1 = true
  ∧ disk saved.2 !! path = Some (File (Json.dumps_indented (deref data self)) (stamp e))
  ∧ disk saved.2 !! temp_path path = None
  ∧ (∀ other, other ≠ path → other ≠ temp_path path →
       disk saved.2 !! other = disk self !! other)
  ∧ file_cache saved.2 = file_cache self.
Proof.
  intros Hsize saved path. subst saved path. unfold save_data.
  rewrite (proj2 (Z.ltb_ge _ _) Hsize), write_without_fault. simpl.
  pose proof (temp_path_ne (join (data_dir self) filename)) as Hne.
  split; [done|]. split; [by rewrite lookup_insert_eq|].
  split; [by rewrite lookup_insert_ne, lookup_delete_eq|].
  split; [|done].
  intros other H1 H2. by rewrite lookup_insert_ne, lookup_delete_ne.
Qed.

(** X15. On a platform other than Windows, a save that gets to the
    write and returns [False] leaves the file of the name, the manager's
    cache and every dict as they were. *)
Theorem posix_failed_save_keeps_document e fault now timestamp filename data self :
  os e = Posix →
  Json.size (Json.dumps_default (deref data self)) ≤ max_file_size self →
  (save_data e fault now timestamp filename data self).1 = false →
  let saved := (save_data e fault now timestamp filename data self).2 in
  disk saved !! join (data_dir self) filename = disk self !! join (data_dir self) filename
  ∧ cache saved = cache self
  ∧ heap saved = heap self.
Proof.
  intros Hos Hsize. unfold save_data. rewrite (proj2 (Z.ltb_ge _ _) Hsize).
  unfold _write_file_async. destruct fault as [k|]; [|done].
  set (path := join (data_dir self) filename).
  destruct (Nat.ltb_spec k (length (write_steps e path (deref data self) (disk self))))
    as [Hk|Hk]; [|done].
  simpl. intros _.
  assert (run (take k (write_steps e path (deref data self) (disk self))) (disk self) !! path
          = disk self !! path) as Hsame.
  { rewrite write_steps_split in *. rewrite length_app in Hk.
    unfold move_steps in *. rewrite Hos in *. cbn [length] in Hk.
    rewrite take_app_le by lia.
    apply run_fill_steps_other. pose proof (temp_path_ne path). done. }
  split; [|done].
  destruct (exists_ _ _); [|done].
  rewrite lookup_delete_ne; [done|]. apply temp_path_ne.
Qed.

(** X16. On a platform other than Windows (where the bytes of the file
    are its text): a save with no failing disk call, of a document whose
    compact and indented texts are both within the size limit and whose
    indented text parses back to it; the handler's cache has no item for
    the new file. A load made when the time to live of the manager's
    cache has passed reads the file and returns the members of the saved
    document. *)
Theorem save_then_late_load_reads_file e now timestamp filename data self now2 :
  os e = Posix →
  Json.size (Json.dumps_default (deref data self)) ≤ max_file_size self →
  Json.size (Json.dumps_indented (deref data self)) ≤ max_file_size self →
  json_loads (Json.dumps_indented (deref data self)) = Some (deref data self) →
  now + TTLCache.ttl (cache self) ≤ now2 →
  TTLCache.contains now2 (file_cache self) (join (data_dir self) filename, "read", stamp e)
  = false →
  let saved := save_data e None now timestamp filename data self in
  let loaded := load_data now2 filename saved.2 in
  saved.1 = true ∧ deref loaded.1 loaded.2 = deref data self.
Proof.
  intros _ Hsize Hsize2 Hparse Hlate Hfmiss saved loaded. subst loaded saved.
  unfold save_data.
  rewrite (proj2 (Z.ltb_ge _ _) Hsize), write_without_fault.
  cbn [fst snd]. split; [done|].
  set (d := deref data self) in *.
  unfold copy, alloc. cbn [fst snd].
  set (s1 := set_cache _ _).
  destruct (setitem_holds (load_key filename) (length (heap self)) (cache self) now)
    as (Hh & _).
  assert (TTLCache.contains now2 (cache s1) (load_key filename) = false) as Hmiss.
  { unfold s1. simpl. by apply (holds_expired _ _ _ _ _ now2 Hh). }
  assert (disk s1 !! join (data_dir s1) filename
          = Some (File (Json.dumps_indented d) (stamp e))) as Hf.
  { unfold s1. simpl. by rewrite lookup_insert_eq. }
  assert (AsyncDatabaseManager._read_file_async json_loads (join (data_dir s1) filename) s1 = d)
    as Hread.
  { unfold AsyncDatabaseManager._read_file_async. rewrite Hf. simpl.
    by rewrite dumps_indented_not_blank, Hparse. }
  unfold AsyncDatabaseManager.load_data, process_file_async.
  rewrite Hmiss, Hf. cbn [mtime].
  assert ((max_file_size s1 <? getsize (File (Json.dumps_indented d) (stamp e))) = false) as ->.
  { apply Z.ltb_ge. unfold s1, getsize. simpl. done. }
  assert (TTLCache.contains now2 (file_cache s1) (join (data_dir s1) filename, "read", stamp e)
          = false) as -> by done.
  rewrite Hread. unfold copy, alloc, deref. simpl.
  rewrite lookup_snoc. simpl.
  case_bool_decide as Hd; simpl.
  - rewrite lookup_snoc. simpl.
    rewrite lookup_app_l by (rewrite !length_app; simpl; lia).
    rewrite lookup_snoc. simpl. done.
  - rewrite lookup_snoc. simpl.
    rewrite lookup_app_l by (rewrite !length_app; simpl; lia).
    rewrite lookup_snoc. done.
Qed.

End Manager_more.

(** ** Batches of the data processor *)

Section MultiCoreDataProcessor_more.
Import MultiCoreDataProcessor.
Local Open Scope list_scope.
Local Open Scope nat_scope.
Context {A B : Type}.
Implicit Types (data : list A) (g : A → B) (operation_func : A → option B).

Lemma length_chunks data (size : nat) :
  length (chunks size data) = (length data + size - 1) / size.
Proof. unfold chunks, py_range_step. by rewrite !length_fmap, length_seq. Qed.

(** The results come back as the results of the chunks, in some
    order. *)
Lemma process_data_parallel_chunks operation_func (self : t) data (completion : list nat) :
  completion ≡ₚ seq 0 (length (chunks (chunk_size self) data)) →
  data ≠ [] →
  process_data_parallel operation_func self completion data
  ≡ₚ concat (_process_chunk operation_func <$> chunks (chunk_size self) data).
Proof.
  intros Hp Hdata. unfold process_data_parallel. destruct data as [|a data]; [done|].
  rewrite Hp.
  rewrite <- (length_fmap (_process_chunk operation_func) (chunks _ (a :: data))).
  by rewrite lookup_all.
Qed.

Lemma process_chunk_length operation_func (chunk : list A) :
  length (_process_chunk operation_func chunk) ≤ length chunk.
Proof.
  unfold _process_chunk. destruct (mapM operation_func chunk) as [results|] eqn:Hm.
  - apply length_mapM in Hm. lia.
  - simpl. lia.
Qed.

Lemma process_chunks_length operation_func (l : list (list A)) :
  length (concat (_process_chunk operation_func <$> l)) ≤ length (concat l).
Proof.
  induction l as [|c l IH]; [done|].
  rewrite fmap_cons, !concat_cons, !length_app.
  pose proof (process_chunk_length operation_func c). lia.
Qed.

(** X17. A batch of at most 125 items is one chunk on any machine: for
    an operation that does not raise, the results come back in the order
    of the items. *)
Theorem small_batch_keeps_order (os_cpu_count : option nat) g data (completion : list nat) :
  length data ≤ 125 →
  completion ≡ₚ seq 0 (length (chunks (chunk_size (init os_cpu_count)) data)) →
  process_data_parallel (λ x, Some (g x)) (init os_cpu_count) completion data = g <$> data.
Proof.
  intros Hlen Hp.
  pose proof (init_chunk_size os_cpu_count) as [Hlo Hhi].
  set (self := init os_cpu_count) in *.
  assert (length (chunks (chunk_size self) data) ≤ 1) as Hone.
  { rewrite length_chunks.
    apply Nat.lt_succ_r, Nat.Div0.div_lt_upper_bound. lia. }
  assert (completion = seq 0 (length (chunks (chunk_size self) data))) as ->.
  { destruct (length (chunks (chunk_size self) data)) as [|[|n]]; [| |lia].
    - by apply Permutation_nil_r.
    - by apply Permutation_singleton_r. }
  apply process_data_parallel_in_order. lia.
Qed.

(** X18. [_process_chunk] answers an exception of the operation with an
    empty list. When the operation raises on one item, the results of all
    the items of its chunk are missing from the result, which is made of
    the results of the other chunks; no exception reaches the caller and
    the single-threaded fallback does not run. *)
Theorem failing_item_drops_its_chunk operation_func (self : t) data (completion : list nat)
    (i : nat) (chunk : list A) (x : A) :
  0 < chunk_size self →
  completion ≡ₚ seq 0 (length (chunks (chunk_size self) data)) →
  chunks (chunk_size self) data !! i = Some chunk →
  x ∈ chunk →
  operation_func x = None →
  process_data_parallel operation_func self completion data
  ≡ₚ concat (_process_chunk operation_func <$> delete i (chunks (chunk_size self) data))
  ∧ length (process_data_parallel operation_func self completion data) + length chunk
    ≤ length data.
Proof.
  intros Hs Hp Hi Hx Hfail.
  assert (data ≠ []) as Hdata.
  { intros ->.
    assert (chunks (chunk_size self) ([] : list A) = []) as Hnil.
    { apply length_zero_iff_nil. rewrite length_chunks. simpl.
      apply Nat.div_small. lia. }
    by rewrite Hnil in Hi. }
  pose proof (process_data_parallel_chunks operation_func self data completion Hp Hdata) as Hres.
  assert (_process_chunk operation_func chunk = []) as Hchunk.
  { unfold _process_chunk.
    destruct (mapM operation_func chunk) as [results|] eqn:Hm; [|done].
    apply mapM_Some_1 in Hm.
    apply list_elem_of_lookup in Hx as [j Hj].
    destruct (Forall2_lookup_l _ _ _ _ _ Hm Hj) as (y & _ & Hy). congruence. }
  pose proof (take_drop_middle _ _ _ Hi) as Hsplit.
  assert (concat (_process_chunk operation_func <$> chunks (chunk_size self) data)
          = concat (_process_chunk operation_func <$> delete i (chunks (chunk_size self) data)))
    as Hsame.
  { rewrite <- Hsplit at 1. rewrite delete_take_drop.
    by rewrite !fmap_app, fmap_cons, !concat_app, concat_cons, Hchunk. }
  split; [by rewrite Hres, Hsame|].
  rewrite (Permutation_length Hres), Hsame, delete_take_drop.
  pose proof (process_chunks_length operation_func
                (take i (chunks (chunk_size self) data)
                 ++ drop (S i) (chunks (chunk_size self) data))) as Hle.
  pose proof (concat_chunks data (chunk_size self) Hs) as Hall.
  rewrite <- Hsplit in Hall. apply (f_equal length) in Hall.
  rewrite concat_app, concat_cons, !length_app in Hall.
  rewrite concat_app, length_app in Hle. lia.
Qed.

End MultiCoreDataProcessor_more.

(** ** The [memory_optimized] decorator *)

Section MemoryOptimized_facts.
Import MemoryOptimizer MemoryOptimized.
Local Open Scope Q_scope.
Context {Args R W : Type}.
Variable func : Args → W → R * W.

Local Abbreviation wrapper := (wrapper func).
Local Abbreviation calls := (calls func).

(** A decorated call hands on what the wrapped function returns and does
    to its state. *)
Lemma wrapper_result created current_time percent_used args w g :
  (wrapper created current_time percent_used args w g).1 = func args w.
Proof.
  unfold MemoryOptimized.wrapper. destruct (func args w) as [result w'].
  destruct (get_memory_optimizer created g) as [o g'].
  by destruct (optimize_memory false current_time percent_used o (outside g')) as [[? ?] ?].
Qed.


End MemoryOptimized_facts.

(** ** The counters of the handler *)

Section EventLoop_facts.
Import Queue AsyncBotHandler EventLoop.
Local Open Scope list_scope.
Local Open Scope Z_scope.
Context {Payload : Type}.
Variable process : kind → Payload → handler_result.
Implicit Types (self : AsyncBotHandler.t Payload) (k : kind).

Lemma returned_snoc k' (l : list (kind * Payload)) k (x : Payload) :
  returned process k' (l ++ [(k, x)])
  = (returned process k' l
     + match k, k', process k x with
       | Message, Message, Returned
       | Callback, Callback, Returned
       | File, File, Returned => 1
       | _, _, _ => 0
       end)%nat.
Proof.
  unfold returned. rewrite List.filter_app, length_app.
  destruct k, k'; simpl; try reflexivity; destruct (process _ x); reflexivity.
Qed.

Lemma failed_snoc (l : list (kind * Payload)) k (x : Payload) :
  failed process (l ++ [(k, x)])
  = (failed process l
     + match process k x with
       | Returned | Raised CancelledError => 0
       | Raised _ => 1
       end)%nat.
Proof.
  unfold failed. rewrite List.filter_app, length_app. simpl.
  by destruct (process k x) as [|[]].
Qed.

Lemma invariant_init (start : Q) : invariant process start (init start).
Proof. split; try done; intros []; unfold qsize; simpl; lia. Qed.

(** No step of the event loop breaks the invariant. *)
Lemma invariant_step (start : Q) self self' :
  invariant process start self → step process self self' → invariant process start self'.
Proof.
  intros [Hm Hb Hu Hmsg Hfiles Herr] Hstep.
  assert (maxsize (message_queue self) = 1000) as Hm1 by apply (Hm Message).
  assert (maxsize (callback_queue self) = 500) as Hm2 by apply (Hm Callback).
  assert (maxsize (file_queue self) = 100) as Hm3 by apply (Hm File).
  pose proof (Hb Message) as Hb1. pose proof (Hb Callback) as Hb2. pose proof (Hb File) as Hb3.
  pose proof (Hu Message) as Hu1. pose proof (Hu Callback) as Hu2. pose proof (Hu File) as Hu3.
  clear Hm Hb Hu. unfold qsize in *. cbn [queue_of] in *.
  destruct Hstep as [k x b self self' Hadd|k self self' Hturn|k self self' Hturn].
  - unfold add_to_queue, put, put_nowait in Hadd.
    destruct (full (queue_of k self)) eqn:Hfull; [done|].
    injection Hadd as <- <-. unfold full, qsize in Hfull.
    assert (Z.of_nat (length (items (queue_of k self))) < maxsize (queue_of k self)) as Hroom.
    { destruct k; cbn [queue_of] in *; rewrite ?Hm1, ?Hm2, ?Hm3 in *;
        cbn in Hfull; apply Z.leb_gt in Hfull; lia. }
    clear Hfull.
    split; try (intros k'; destruct k'); destruct k;
      cbn [queue_of set_queue message_queue callback_queue file_queue stats handled
           maxsize items unfinished_tasks init create] in *;
      unfold qsize;
      cbn [queue_of set_queue message_queue callback_queue file_queue stats handled
           maxsize items unfinished_tasks init create];
      rewrite ?length_app; cbn [length]; try done; lia.
  - unfold worker_turn, get in Hturn.
    destruct (items (queue_of k self)) as [|x rest] eqn:Hi; [done|].
    assert (0 < unfinished_tasks (queue_of k self)) as Hpos.
    { destruct k; cbn [queue_of] in *; rewrite Hi in *; cbn [length] in *; lia. }
    destruct (process k x) as [|e] eqn:Hp.
    + rewrite queue_of_record_call, queue_of_set_queue in Hturn.
      unfold task_done in Hturn. cbn [unfinished_tasks items maxsize] in Hturn.
      destruct (Z.leb_spec (unfinished_tasks (queue_of k self)) 0) as [Hle|Hgt]; [lia|].
      injection Hturn as <-.
      split; try (intros k'; destruct k'); destruct k;
        cbn [queue_of set_queue set_stats record_call count_processed
             message_queue callback_queue file_queue stats handled
             messages_processed files_processed errors
             maxsize items unfinished_tasks init create] in *;
        unfold qsize;
        cbn [maxsize items unfinished_tasks];
        rewrite ?Hi in *; cbn [length] in *;
        rewrite ?returned_snoc, ?failed_snoc, ?Hp; try done; lia.
    + assert (e ≠ CancelledError) as He by (intros ->; done).
      assert (∀ s : AsyncBotHandler.t Payload, on_raise k e s
                   = Continue (set_stats (count_error (stats s)) (logger (worker_error k) s)))
        as Hraise by (intros; destruct e; done).
      rewrite Hraise in Hturn. injection Hturn as <-.
      assert (match e with CancelledError => 0%nat | _ => 1%nat end = 1%nat) as He1
        by (by destruct e).
      split; try (intros k'; destruct k'); destruct k;
        cbn [queue_of set_queue set_stats record_call count_error logger
             message_queue callback_queue file_queue stats handled
             messages_processed files_processed errors
             maxsize items unfinished_tasks init create] in *;
        unfold qsize;
        cbn [maxsize items unfinished_tasks];
        rewrite ?Hi in *; cbn [length] in *;
        rewrite ?returned_snoc, ?failed_snoc, ?Hp, ?He1; try done; lia.
  - unfold worker_turn, get in Hturn.
    destruct (items (queue_of k self)) as [|x rest] eqn:Hi; [done|].
    destruct (process k x) as [|e] eqn:Hp.
    + rewrite queue_of_record_call, queue_of_set_queue in Hturn.
      unfold task_done in Hturn. cbn [unfinished_tasks items maxsize] in Hturn.
      by destruct (unfinished_tasks (queue_of k self) <=? 0).
    + destruct e; try done. injection Hturn as <-.
      split; try (intros k'; destruct k'); destruct k;
        cbn [queue_of set_queue set_stats record_call
             message_queue callback_queue file_queue stats handled
             messages_processed files_processed errors
             maxsize items unfinished_tasks init create] in *;
        unfold qsize;
        cbn [maxsize items unfinished_tasks];
        rewrite ?Hi in *; cbn [length] in *;
        rewrite ?returned_snoc, ?failed_snoc, ?Hp; try done; lia.
Qed.

Lemma invariant_reachable (start : Q) self :
  rtc (step process) (init start) self → invariant process start self.
Proof.
  apply (rtc_ind_r (λ s, invariant process start s) (init start)).
  - apply invariant_init.
  - intros y z _ Hstep Hy. by apply (invariant_step start y z).
Qed.

(** X20. Whatever calls of the [add_..._to_queue] coroutines return and
    whatever turns the three workers take, in whatever order, on a
    handler made by [__init__]: no queue is above its bound,
    [messages_processed] and [files_processed] are the numbers of calls
    of [_process_message_async] and [_process_file_async] that returned,
    and [errors] is the number of calls of the three processing
    coroutines that raised something other than the cancellation. *)
Theorem reachable_counters_exact (start : Q) self :
  rtc (step process) (init start) self →
  qsize (message_queue self) ≤ 1000
  ∧ qsize (callback_queue self) ≤ 500
  ∧ qsize (file_queue self) ≤ 100
  ∧ messages_processed (stats self) = Z.of_nat (returned process Message (handled self))
  ∧ files_processed (stats self) = Z.of_nat (returned process File (handled self))
  ∧ errors (stats self) = Z.of_nat (failed process (handled self)).
Proof.
  intros Hreach. destruct (invariant_reachable start self Hreach) as [Hm Hb Hu Hmsg Hfiles Herr].
  assert (maxsize (message_queue self) = 1000) as Hm1 by apply (Hm Message).
  assert (maxsize (callback_queue self) = 500) as Hm2 by apply (Hm Callback).
  assert (maxsize (file_queue self) = 100) as Hm3 by apply (Hm File).
  pose proof (Hb Message) as Hb1. pose proof (Hb Callback) as Hb2. pose proof (Hb File) as Hb3.
  cbn [queue_of] in *. repeat split; try done; lia.
Qed.

(** X21. On such a handler the [task_done()] of a worker never raises
    [ValueError]: whenever a worker gets an item from its queue, the
    queue has an unfinished task to mark as done. *)
Theorem reachable_task_done_never_raises (start : Q) self k (x : Payload) (q : Queue.t Payload) :
  rtc (step process) (init start) self →
  get (queue_of k self) = Done (x, q) →
  ∃ q', task_done q = Done q'.
Proof.
  intros Hreach Hget. destruct (invariant_reachable start self Hreach) as [_ _ Hu _ _ _].
  specialize (Hu k). unfold get in Hget. unfold qsize in Hu.
  destruct (items (queue_of k self)) as [|y rest] eqn:Hi; [done|].
  injection Hget as <- <-. unfold task_done. cbn in *.
  destruct (Z.leb_spec (unfinished_tasks (queue_of k self)) 0); [lia|]. by eexists.
Qed.

End EventLoop_facts.

Section Guarded_facts.
Import Queue AsyncBotHandler EventLoop.
Local Open Scope list_scope.
Local Open Scope Z_scope.
Context {Payload : Type}.
Variable body : kind → Payload → handler_result.
Variable cached : Payload → cache_outcome.
Implicit Types (self : AsyncBotHandler.t Payload) (k : kind).

(** The calls of the message coroutine on which the wrapper of the cache
    raised [KeyError]. *)
Local Abbreviation wrapper_raised :=
  (λ c : kind * Payload,
     match c.1, cached c.2 with
     | Message, Expired => true
     | _, _ => false
     end).

(** The calls of the file coroutine whose body was not cancelled. *)
Local Abbreviation file_not_cancelled :=
  (λ c : kind * Payload,
     match c.1, body c.1 c.2 with
     | File, Raised CancelledError => false
     | File, _ => true
     | _, _ => false
     end).

Lemma failed_processing (l : list (kind * Payload)) :
  failed (processing body cached) l = length (List.filter wrapper_raised l).
Proof.
  unfold failed. f_equal. apply List.filter_ext. intros [k x]. cbn [fst snd].
  unfold processing, guarded.
  destruct k; [destruct (cached x); try done|..]; by destruct (body _ x) as [|[]].
Qed.

Lemma returned_processing_file (l : list (kind * Payload)) :
  returned (processing body cached) File l = length (List.filter file_not_cancelled l).
Proof.
  unfold returned. f_equal. apply List.filter_ext. intros [k x]. cbn [fst snd].
  unfold processing, guarded. destruct k; try done; by destruct (body _ x) as [|[]].
Qed.

Lemma no_wrapper_raised (l : list (kind * Payload)) :
  (∀ x, cached x ≠ Expired) → List.filter wrapper_raised l = [].
Proof.
  intros Hnever. induction l as [|[k x] l IH]; [done|]. cbn [List.filter fst snd].
  specialize (Hnever x). destruct k; [destruct (cached x); try done|..]; exact IH.
Qed.

(** X22. The bodies of the three processing coroutines catch every
    exception but the cancellation, so no failure of a body reaches a
    worker. On a handler made by [__init__], with the processing
    coroutines of the repository, [errors] is the number of calls of
    [_process_message_async] on which the wrapper of its cache raised
    [KeyError], the one exception that is raised outside the [try]; when
    the wrapper raises on no item, [errors] stays 0 whatever the bodies
    raise. A file is counted as processed whenever its body was not
    cancelled, also when the body raised. *)
Theorem errors_count_only_wrapper_failures (start : Q) self :
  rtc (step (processing body cached)) (init start) self →
  errors (stats self) = Z.of_nat (length (List.filter wrapper_raised (handled self)))
  ∧ ((∀ x, cached x ≠ Expired) → errors (stats self) = 0)
  ∧ files_processed (stats self)
    = Z.of_nat (length (List.filter file_not_cancelled (handled self))).
Proof.
  intros Hreach.
  destruct (invariant_reachable (processing body cached) start self Hreach)
    as [_ _ _ _ Hfiles Herr].
  rewrite Herr, Hfiles, failed_processing, returned_processing_file.
  split; [done|]. split; [|done].
  intros Hnever. by rewrite no_wrapper_raised.
Qed.

End Guarded_facts.

(** ** The data files as the application uses them *)

Section App_facts.
Import FileSystem HighPerformanceFileHandler AsyncDatabaseManager App.
Local Open Scope list_scope.
Local Open Scope Z_scope.
Variable json_loads : string → option Json.dict.
Implicit Types (self : AsyncDatabaseManager.t) (d : Json.dict) (l : loc)
               (g : MemoryOptimized.globals) (r : readings).

Local Abbreviation load_json_file := (load_json_file json_loads).

(** A write that answers [True] has put the indented text at the
    path. *)
Lemma write_true e fault file_path data (d : FileSystem.t) :
  (_write_file_async e fault file_path data d).1 = true →
  (_write_file_async e fault file_path data d).2
  = <[file_path := File (Json.dumps_indented data) (stamp e)]> (delete (temp_path file_path) d).
Proof.
  unfold _write_file_async. destruct fault as [k|].
  - destruct (k <? length _)%nat; [done|]. intros _. apply run_write_steps.
  - intros _. apply run_write_steps.
Qed.

(** The manager state that a decorated save leaves is that of the body
    of [save_json_file]. *)
Lemma save_json_file_body_state e fault now timestamp r filename data self g :
  (save_json_file e fault now timestamp r filename data self g).1.2
  = (save_json_file_body e fault now timestamp (filename, data) self).2.
Proof. unfold save_json_file. by rewrite wrapper_result. Qed.

(** X23. [save_json_file], for a file of the data directory of the
    manager: whether the save of the manager succeeds, fails in a disk
    call or finds the document above the size limit, the file holds a
    text of the document afterwards. It is the text that the manager
    writes when the manager answered [True] and the text of the fallback
    write otherwise. *)
Theorem save_json_file_writes_document e fault now timestamp r filename data self g :
  join (data_dir self) (basename filename) = filename →
  let saved := (save_json_file e fault now timestamp r filename data self g).1.2 in
  disk saved !! filename
  = Some (File (if (save_data e fault now timestamp (basename filename) data self).1
                then Json.dumps_indented (deref data self)
                else dump_text (deref data self))
               (stamp e)).
Proof.
  intros Hpath saved. subst saved. rewrite save_json_file_body_state.
  unfold save_json_file_body.
  destruct (save_data e fault now timestamp (basename filename) data self) as [success s1] eqn:Hs.
  destruct success; cbn [fst snd].
  - assert ((save_data e fault now timestamp (basename filename) data self).1 = true) as Hok
      by by rewrite Hs.
    destruct (save_data_success _ _ _ _ _ _ _ Hok) as (written & Hw & Hsaved).
    rewrite Hsaved in Hs. injection Hs as <-. cbn [disk].
    pose proof (write_true e fault (join (data_dir self) (basename filename))
                  (deref data self) (disk self)) as Hw'.
    rewrite Hw in Hw'. cbn [fst snd] in Hw'. rewrite Hw' by done.
    by rewrite Hpath, lookup_insert_eq.
  - cbn [disk set_disk]. rewrite lookup_insert_eq. do 3 f_equal.
    assert (heap s1 = heap self) as Hheap.
    { revert Hs. unfold save_data.
      destruct (max_file_size self <? _); [by intros [= <-]|].
      destruct (_write_file_async e fault _ _ _) as [[] written]; [done|].
      by intros [= <-]. }
    unfold deref. by rewrite Hheap.
Qed.

(** X24. A document above the size limit is saved with
    [save_json_file] while the manager's cache holds a document for the
    file. The fallback writes the new document into the file, but the
    cache is not told: until the cached item expires, [load_json_file]
    returns the members of the cached document, not those of the file. *)
Theorem oversized_save_json_file_then_load_is_stale e fault now timestamp r r2 filename data
    self g (now2 : Z) (cached : loc) (until : Z) (j : nat) :
  max_file_size self < Json.size (Json.dumps_default (deref data self)) →
  TTLCache.holds (load_key (basename filename)) cached until j (cache self) →
  now2 < until →
  let saved := save_json_file e fault now timestamp r filename data self g in
  let loaded := load_json_file now2 r2 filename saved.1.2 saved.2 in
  disk saved.1.2 !! filename = Some (File (dump_text (deref data self)) (stamp e))
  ∧ deref loaded.1.1 loaded.1.2 = deref cached self.
Proof.
  intros Hbig Hh Hnow2 saved loaded. subst loaded saved.
  rewrite save_json_file_body_state.
  unfold App.load_json_file. rewrite wrapper_result.
  unfold save_json_file_body, load_json_file_body.
  rewrite (save_data_oversized e fault now timestamp (basename filename) data self Hbig).
  cbn [fst snd disk set_disk deref heap]. split; [by rewrite lookup_insert_eq|].
  match goal with
  | |- context [AsyncDatabaseManager.load_data _ _ _ ?s] =>
    destruct (load_data_hit json_loads s now2 (basename filename) cached until j Hh Hnow2)
      as (c & _ & ->)
  end.
  unfold deref. cbn [fst snd heap]. by rewrite lookup_snoc.
Qed.

End App_facts.

(** ** Instances of the properties of this part *)

(** Witness of X6: the message worker on a queue of two messages. *)
Lemma worker_processes_in_order_witness :
  let self :=
    AsyncBotHandler.set_queue AsyncBotHandler.Message (Queue.Mk 1000 [1; 2]%nat 2)
      (AsyncBotHandler.init 0%Q) in
  ∃ self',
    AsyncBotHandler.worker (λ _ _, AsyncBotHandler.Returned) AsyncBotHandler.Message 3 self
    = AsyncBotHandler.Idle self'
    ∧ AsyncBotHandler.handled self'
      = [(AsyncBotHandler.Message, 1%nat); (AsyncBotHandler.Message, 2%nat)]
    ∧ AsyncBotHandler.messages_processed (AsyncBotHandler.stats self') = 2%Z.
Proof.
  intros self.
  destruct (worker_processes_in_order (λ _ _, AsyncBotHandler.Returned)
              AsyncBotHandler.Message self [1; 2]%nat 3)
    as (s & Hrun & _ & Hh & _ & _ & Hm & _).
  - reflexivity.
  - simpl. lia.
  - repeat constructor.
  - simpl. lia.
  - exists s. split; [exact Hrun|]. split; [exact Hh|exact Hm].
Defined.

(** Witness of X7: the processing of the first of two messages is
    cancelled. *)
Lemma worker_cancelled_ends_witness :
  let self :=
    AsyncBotHandler.set_queue AsyncBotHandler.Message (Queue.Mk 1000 [1; 2]%nat 2)
      (AsyncBotHandler.init 0%Q) in
  ∃ self',
    AsyncBotHandler.worker (λ _ _, AsyncBotHandler.Raised Queue.CancelledError)
      AsyncBotHandler.Message 1 self
    = AsyncBotHandler.Ended self'
    ∧ Queue.items (AsyncBotHandler.message_queue self') = [2%nat]
    ∧ AsyncBotHandler.stats self' = AsyncBotHandler.stats self.
Proof.
  intros self.
  destruct (worker_cancelled_ends (λ _ _, AsyncBotHandler.Raised Queue.CancelledError)
              AsyncBotHandler.Message self 1%nat [2%nat] 1)
    as (s & Hrun & Hi & _ & Hs & _).
  - reflexivity.
  - reflexivity.
  - lia.
  - exists s. split; [exact Hrun|]. split; [exact Hi|exact Hs].
Defined.

(** Witness of X8: three messages are put and then worked off. *)
Lemma enqueued_messages_processed_in_order_witness :
  ∃ queued self',
    AsyncBotHandler.enqueue_all (AsyncBotHandler.init 0%Q) [1; 2; 3]%nat
    = ([true; true; true], Some queued)
    ∧ AsyncBotHandler._message_worker (λ _ _, AsyncBotHandler.Returned) 4 queued
      = AsyncBotHandler.Idle self'
    ∧ AsyncBotHandler.messages_processed (AsyncBotHandler.stats self') = 3%Z.
Proof.
  destruct (enqueued_messages_processed_in_order (λ _ _, AsyncBotHandler.Returned)
              0%Q [1; 2; 3]%nat 4)
    as (queued & s & Henq & _ & Hrun & _ & Hm & _).
  - simpl. lia.
  - repeat constructor.
  - simpl. lia.
  - exists queued, s. split; [exact Henq|]. split; [exact Hrun|exact Hm].
Defined.

(** Witness of X9: message 7 is processed at time 0 and again at time
    301, when the result stored at time 1 has expired. *)
Lemma cached_call_repeated_after_ttl_witness :
  AsyncCached.runs
    (MessageSample.wrapper 301 302 7%nat
       (MessageSample.wrapper 0 1 7%nat MessageSample.decorated).2).2
  = [7; 7]%nat.
Proof.
  destruct (cached_call_repeated_after_ttl MessageSample.str_args MessageSample.hash
              "_process_message_async" MessageSample.func MessageSample.decorated
              7%nat 7%nat 0 1 301 302 [])
    as (Hruns & _).
  - reflexivity.
  - reflexivity.
  - constructor.
  - simpl. lia.
  - exact Hruns.
Defined.

(** Witness of X11: with a hash that maps every string to 0, the call
    on message 2 returns the result of the call on message 1. *)
Lemma colliding_arguments_share_result_witness :
  let wrapper :=
    AsyncCached.wrapper MessageSample.str_args (λ _, 0%Z) "_process_message_async"
      (λ (message : nat) (handled : nat), (message, S handled)) in
  (wrapper 5%Z 6%Z 2%nat (wrapper 0%Z 1%Z 1%nat (AsyncCached.decorate 300 0%nat)).2).1 = 1%nat.
Proof.
  intros wrapper.
  destruct (colliding_arguments_share_result MessageSample.str_args (λ _, 0%Z)
              "_process_message_async"
              (λ (message : nat) (handled : nat), (message, S handled))
              (AsyncCached.decorate 300 0%nat) 1%nat 2%nat 0 1 5 6)
    as (Hres & _).
  - reflexivity.
  - reflexivity.
  - simpl. lia.
  - exact Hres.
Defined.

(** Witness of X12: there is no file [data/rentals.json] on the sample
    disk. *)
Lemma load_missing_file_is_empty_witness :
  let self := ManagerSample.manager (50 * 1024 * 1024) [] in
  let loaded := AsyncDatabaseManager.load_data (λ _, None) 100 "rentals.json" self in
  AsyncDatabaseManager.deref loaded.1 loaded.2 = []
  ∧ AsyncDatabaseManager.disk loaded.2 = AsyncDatabaseManager.disk self.
Proof.
  intros self loaded.
  destruct (load_missing_file_is_empty (λ _, None) self 100 "rentals.json")
    as (Hd & Hdisk & _).
  - reflexivity.
  - reflexivity.
  - reflexivity.
  - split; [exact Hd|exact Hdisk].
Defined.

(** Witness of X13: the users file is loaded at time 100, the caller
    adds user 2 to the dict it got, and the load at time 170 returns that
    dict, with user 2, while the file is as it was. *)
Lemma load_returns_handler_cached_object_witness :
  let self := ManagerSample.manager (50 * 1024 * 1024) [] in
  let loaded :=
    AsyncDatabaseManager.load_data (λ _, Some UsersSample.first) 100 "users.json" self in
  let mutated :=
    AsyncDatabaseManager.mutate loaded.1
      (AsyncDatabaseManager.SetItem "2" (Json.Obj [("name", Json.Str "B")])) loaded.2 in
  let again :=
    AsyncDatabaseManager.load_data (λ _, Some UsersSample.first) 170 "users.json" mutated in
  again.1 = loaded.1
  ∧ AsyncDatabaseManager.deref again.1 again.2 = UsersSample.second
  ∧ AsyncDatabaseManager.disk again.2 = UsersSample.disk.
Proof.
  intros self loaded mutated again.
  destruct (load_returns_handler_cached_object (λ _, Some UsersSample.first) self 100 170
              "users.json" (FileSystem.File (Json.dumps_indented UsersSample.first) 5)
              (AsyncDatabaseManager.SetItem "2" (Json.Obj [("name", Json.Str "B")])))
    as (_ & Hsame & Hd).
  - reflexivity.
  - reflexivity.
  - apply Z.leb_le. reflexivity.
  - reflexivity.
  - vm_compute. discriminate.
  - simpl. lia.
  - simpl. lia.
  - vm_compute. discriminate.
  - split; [exact Hsame|]. split; [exact Hd|reflexivity].
Defined.

(** Witness of X14: the second users document is saved over the
    first. *)
Lemma save_writes_only_its_file_witness :
  let self := ManagerSample.manager (50 * 1024 * 1024) [UsersSample.second] in
  let saved :=
    AsyncDatabaseManager.save_data ManagerSample.posix None 100 "20250101_120000"
      "users.json" 0%nat self in
  saved.1 = true
  ∧ AsyncDatabaseManager.disk saved.2 !! "data/users.json"
    = Some (FileSystem.File (Json.dumps_indented UsersSample.second) 9)
  ∧ AsyncDatabaseManager.disk saved.2 !! "data/users.json.tmp" = None.
Proof.
  intros self saved.
  destruct (save_writes_only_its_file ManagerSample.posix 100 "20250101_120000"
              "users.json" 0%nat self)
    as (Hok & Hfile & Htemp & _).
  - apply Z.leb_le. reflexivity.
  - split; [exact Hok|]. split; [exact Hfile|exact Htemp].
Defined.

(** Witness of X15: the write of the second users document fails after
    the temporary file has been created. *)
Lemma posix_failed_save_keeps_document_witness :
  let self := ManagerSample.manager 64 [UsersSample.second] in
  let saved :=
    (AsyncDatabaseManager.save_data ManagerSample.posix (Some 1%nat) 100 "20250101_120000"
       "users.json" 0%nat self).2 in
  AsyncDatabaseManager.disk saved !! "data/users.json"
  = Some (FileSystem.File (Json.dumps_indented UsersSample.first) 5)
  ∧ AsyncDatabaseManager.cache saved = AsyncDatabaseManager.cache self.
Proof.
  intros self saved.
  destruct (posix_failed_save_keeps_document ManagerSample.posix (Some 1%nat) 100
              "20250101_120000" "users.json" 0%nat self)
    as (Hfile & Hcache & _).
  - reflexivity.
  - apply Z.leb_le. reflexivity.
  - reflexivity.
  - split; [exact Hfile|exact Hcache].
Defined.

(** Witness of X16: the second users document is saved at time 100 and
    loaded at time 170. *)
Lemma save_then_late_load_reads_file_witness :
  let self := ManagerSample.manager (50 * 1024 * 1024) [UsersSample.second] in
  let saved :=
    AsyncDatabaseManager.save_data ManagerSample.posix None 100 "20250101_120000"
      "users.json" 0%nat self in
  let loaded :=
    AsyncDatabaseManager.load_data (λ _, Some UsersSample.second) 170 "users.json" saved.2 in
  saved.1 = true
  ∧ AsyncDatabaseManager.deref loaded.1 loaded.2 = UsersSample.second.
Proof.
  intros self saved loaded.
  apply (save_then_late_load_reads_file (λ _, Some UsersSample.second) ManagerSample.posix
           100 "20250101_120000" "users.json" 0%nat self 170).
  - reflexivity.
  - apply Z.leb_le. reflexivity.
  - apply Z.leb_le. reflexivity.
  - reflexivity.
  - simpl. lia.
  - reflexivity.
Defined.

(** Witness of X17: three items on eight CPUs. *)
Lemma small_batch_keeps_order_witness :
  MultiCoreDataProcessor.process_data_parallel (λ x : nat, Some (S x))
    (MultiCoreDataProcessor.init (Some 8%nat)) [0%nat] [1; 2; 3]%nat
  = [2; 3; 4]%nat.
Proof.
  apply (small_batch_keeps_order (Some 8%nat) S [1; 2; 3]%nat [0%nat]).
  - simpl. lia.
  - reflexivity.
Defined.

(** Witness of X18: 126 items on eight CPUs; the operation raises on
    item 3, which is in the first chunk of 125 items, so at most one
    result is left. *)
Lemma failing_item_drops_its_chunk_witness :
  let operation_func := λ x : nat, if (x =? 3)%nat then None else Some x in
  (length (MultiCoreDataProcessor.process_data_parallel operation_func
             (MultiCoreDataProcessor.init (Some 8%nat)) [1; 0]%nat (seq 0 126))
   + length (seq 0 125) ≤ length (seq 0 126))%nat.
Proof.
  intros operation_func.
  destruct (failing_item_drops_its_chunk operation_func
              (MultiCoreDataProcessor.init (Some 8%nat)) (seq 0 126) [1; 0]%nat
              0%nat (seq 0 125) 3%nat)
    as (_ & Hlen).
  - vm_compute. lia.
  - vm_compute. apply perm_swap.
  - reflexivity.
  - apply list_elem_of_lookup. exists 3%nat. reflexivity.
  - reflexivity.
  - exact Hlen.
Defined.


(** Witness of X20: a new handler after one message has been put. *)
Lemma reachable_counters_exact_witness :
  let self :=
    AsyncBotHandler.set_queue AsyncBotHandler.Message (Queue.Mk 1000 [7%nat] 1)
      (AsyncBotHandler.init 0%Q) in
  (Queue.qsize (AsyncBotHandler.message_queue self) ≤ 1000)%Z
  ∧ AsyncBotHandler.errors (AsyncBotHandler.stats self)
    = Z.of_nat (EventLoop.failed (λ _ _, AsyncBotHandler.Returned)
                  (AsyncBotHandler.handled self)).
Proof.
  intros self.
  destruct (reachable_counters_exact (λ _ _, AsyncBotHandler.Returned) 0%Q self)
    as (Hq & _ & _ & _ & _ & He).
  - apply rtc_once, (EventLoop.step_add _ AsyncBotHandler.Message 7%nat true). reflexivity.
  - split; [exact Hq|exact He].
Defined.

(** Witness of X21: the message worker gets the message just put. *)
Lemma reachable_task_done_never_raises_witness :
  ∃ q', Queue.task_done (Queue.Mk (A := nat) 1000 [] 1) = Queue.Done q'.
Proof.
  apply (reachable_task_done_never_raises (λ _ _, AsyncBotHandler.Returned) 0%Q
           (AsyncBotHandler.set_queue AsyncBotHandler.Message (Queue.Mk 1000 [7%nat] 1)
              (AsyncBotHandler.init 0%Q))
           AsyncBotHandler.Message 7%nat (Queue.Mk 1000 [] 1)).
  - apply rtc_once, (EventLoop.step_add _ AsyncBotHandler.Message 7%nat true). reflexivity.
  - reflexivity.
Defined.

(** Witness of X22: a file is put and worked off; the body of its
    processing raises. *)
Lemma errors_count_only_wrapper_failures_witness :
  let body := λ (_ : AsyncBotHandler.kind) (_ : nat),
                AsyncBotHandler.Raised (Queue.Exception "AttributeError") in
  let process := EventLoop.processing body (λ _, EventLoop.Miss) in
  let queued :=
    AsyncBotHandler.set_queue AsyncBotHandler.File (Queue.Mk 100 [7%nat] 1)
      (AsyncBotHandler.init 0%Q) in
  let self :=
    match AsyncBotHandler.worker_turn process AsyncBotHandler.File queued with
    | AsyncBotHandler.Continue s => s
    | _ => queued
    end in
  AsyncBotHandler.errors (AsyncBotHandler.stats self) = 0%Z
  ∧ AsyncBotHandler.files_processed (AsyncBotHandler.stats self) = 1%Z.
Proof.
  intros body process queued self.
  destruct (errors_count_only_wrapper_failures body (λ _, EventLoop.Miss) 0%Q self)
    as (_ & He & Hf).
  - apply (rtc_l _ _ queued).
    + apply (EventLoop.step_add _ AsyncBotHandler.File 7%nat true). reflexivity.
    + apply rtc_once, (EventLoop.step_continue _ AsyncBotHandler.File). reflexivity.
  - split; [apply He; discriminate|exact Hf].
Defined.

(** Witness of X23: the second users document, above the size limit of
    the manager, is saved with [save_json_file]. *)
Lemma save_json_file_writes_document_witness :
  let self := ManagerSample.manager 30 [UsersSample.second] in
  let g := MemoryOptimized.Globals None (MemoryOptimizer.Eff 0 []) in
  let saved :=
    (App.save_json_file ManagerSample.posix None 100 "20250101_120000"
       (App.Readings 0 1 50) "data/users.json" 0%nat self g).1.2 in
  AsyncDatabaseManager.disk saved !! "data/users.json"
  = Some (FileSystem.File (App.dump_text UsersSample.second) 9).
Proof.
  intros self g saved.
  apply (save_json_file_writes_document ManagerSample.posix None 100 "20250101_120000"
           (App.Readings 0 1 50) "data/users.json" 0%nat self g).
  reflexivity.
Defined.

(** Witness of X24: the first users document is cached until time 160;
    the second, above the size limit, is saved at time 100; the load at
    time 120 returns the first. *)
Lemma oversized_save_json_file_then_load_is_stale_witness :
  let self :=
    AsyncDatabaseManager.Mk "data" 30 (TTLCache.create 1000 300)
      (TTLCache.Mk 500 60 [TTLCache.Link "load:users.json" 0%nat 160])
      [UsersSample.first; UsersSample.second] UsersSample.disk in
  let g := MemoryOptimized.Globals None (MemoryOptimizer.Eff 0 []) in
  let saved :=
    App.save_json_file ManagerSample.posix None 100 "20250101_120000"
      (App.Readings 0 1 50) "data/users.json" 1%nat self g in
  let loaded :=
    App.load_json_file (λ _, None) 120 (App.Readings 0 21 50) "data/users.json"
      saved.1.2 saved.2 in
  AsyncDatabaseManager.disk saved.1.2 !! "data/users.json"
  = Some (FileSystem.File (App.dump_text UsersSample.second) 9)
  ∧ AsyncDatabaseManager.deref loaded.1.1 loaded.1.2 = UsersSample.first.
Proof.
  intros self g saved loaded.
  apply (oversized_save_json_file_then_load_is_stale (λ _, None) ManagerSample.posix None 100
           "20250101_120000" (App.Readings 0 1 50) (App.Readings 0 21 50)
           "data/users.json" 1%nat self g 120 0%nat 160 0%nat).
  - apply Z.ltb_lt. reflexivity.
  - exists [], []. split; [reflexivity|].
    split; [apply not_elem_of_nil|]. split; [apply not_elem_of_nil|]. simpl. lia.
  - lia.
Defined.

(** ** The discipline score *)

Section Ratings_facts.
Import Ratings.
Local Open Scope list_scope.
Local Open Scope Z_scope.
Implicit Types (discipline_rules : gmap string (gmap string Z)) (window : Z)
               (transactions : list Json.dict).

Lemma round_div_range (s n : Z) : 0 < n → 0 ≤ s ≤ 100 * n → 0 ≤ round_div s n ≤ 100.
Proof.
  intros Hn Hs. unfold round_div.
  pose proof (Z.div_mod s n ltac:(lia)) as Hdiv.
  pose proof (Z.mod_pos_bound s n Hn) as Hmod.
  assert (0 ≤ s / n) as Hlo by (apply Z.div_pos; lia).
  assert (s / n ≤ 100) as Hhi by (apply Z.div_le_upper_bound; lia).
  destruct (Z.ltb_spec (2 * (s mod n)) n); [lia|].
  assert (s / n < 100) by nia.
  destruct (n <? 2 * (s mod n)); [lia|]. destruct (Z.even (s / n)); lia.
Qed.

Lemma transaction_score_range discipline_rules (transaction : Json.dict) (score : Z) :
  transaction_score discipline_rules transaction = Some score → 0 ≤ score ≤ 100.
Proof.
  unfold transaction_score.
  destruct (rule_bonus _ "return_timing" _); [|done].
  destruct (rule_bonus _ "item_condition" _); [|done].
  destruct (rule_bonus _ "rule_compliance" _); [|done].
  simpl. intros [= <-]. lia.
Qed.

Lemma transaction_score_total discipline_rules (transaction : Json.dict) :
  keys_hashable transaction = true → is_Some (transaction_score discipline_rules transaction).
Proof.
  unfold keys_hashable, transaction_score, rule_bonus.
  intros [[-> ->]%andb_true_iff ->]%andb_true_iff.
  destruct (field "return_timing" _ _), (field "item_condition" _ _),
    (field "rule_compliance" _ _); by eexists.
Qed.

Lemma sum_range (scores : list Z) :
  Forall (λ s, 0 ≤ s ≤ 100) scores →
  0 ≤ foldr Z.add 0 scores ≤ 100 * Z.of_nat (length scores).
Proof.
  induction 1 as [|s scores Hs _ IH]; [done|].
  cbn [foldr length]. lia.
Qed.

(** X25. For a window that is not negative and transactions whose keys
    can be hashed, [calculate_discipline_score] returns, and what it
    returns is between 0 and 100, whatever bonuses the rules hold; for no
    transactions it is 50. *)
Theorem discipline_score_in_range discipline_rules window transactions :
  0 ≤ window →
  Forall (λ t, keys_hashable t = true) transactions →
  ∃ score,
    calculate_discipline_score discipline_rules window transactions = Returns score
    ∧ 0 ≤ score ≤ 100
    ∧ (transactions = [] → score = 50).
Proof.
  intros Hw Hall.
  destruct transactions as [|t ts]; [exists 50; split; [done|split; [lia|done]]|].
  unfold calculate_discipline_score.
  set (l := t :: ts) in *. set (recent := last_slice window l).
  assert (recent ≠ []) as Hne.
  { intros Hnil. apply (f_equal length) in Hnil. subst recent. unfold last_slice in Hnil.
    destruct (Z.ltb_spec 0 window); rewrite length_drop in Hnil; subst l;
      cbn [length] in Hnil; lia. }
  assert (Forall (λ t, keys_hashable t = true) recent) as Hrecent.
  { subst recent. unfold last_slice. destruct (0 <? window); by apply Forall_drop. }
  destruct (mapM (transaction_score discipline_rules) recent) as [scores|] eqn:Hm.
  - pose proof (mapM_Some_1 _ _ _ Hm) as H2.
    assert (Forall (λ s, 0 ≤ s ≤ 100) scores) as Hscores.
    { apply Forall_forall. intros s Hs. apply list_elem_of_lookup in Hs as [i Hi].
      destruct (Forall2_lookup_r _ _ _ _ _ H2 Hi) as (x & _ & Hx).
      by apply (transaction_score_range discipline_rules x). }
    destruct scores as [|s scores].
    { apply Forall2_nil_inv_r in H2. done. }
    eexists. split; [done|]. split; [|done].
    apply round_div_range; [simpl; lia|]. by apply sum_range.
  - exfalso. apply mapM_None in Hm. apply Exists_exists in Hm as (x & Hx & Hnone).
    rewrite Forall_forall in Hrecent.
    destruct (transaction_score_total discipline_rules x (Hrecent x Hx)) as [? Hsome].
    congruence.
Qed.

(** X26. With a positive window, only the last [window] transactions
    count: whatever transactions come before them, the outcome is that
    for those alone. *)
Theorem discipline_score_uses_last_window discipline_rules window
    (older recent : list Json.dict) :
  0 < window →
  length recent = Z.to_nat window →
  calculate_discipline_score discipline_rules window (older ++ recent)
  = calculate_discipline_score discipline_rules window recent.
Proof.
  intros Hw Hlen.
  assert (last_slice window (older ++ recent) = recent) as Hs1.
  { unfold last_slice. rewrite (proj2 (Z.ltb_lt 0 window)) by lia.
    rewrite length_app, <- Hlen.
    replace (length older + length recent - length recent)%nat with (length older) by lia.
    by rewrite drop_app_length. }
  assert (last_slice window recent = recent) as Hs2.
  { unfold last_slice. rewrite (proj2 (Z.ltb_lt 0 window)) by lia.
    by rewrite <- Hlen, Nat.sub_diag. }
  unfold calculate_discipline_score. rewrite Hs1, Hs2.
  destruct recent as [|r recent]; [simpl in Hlen; lia|]. by destruct older.
Qed.

(** X27. A window of 0 does not leave out every transaction: the slice
    from [-0] is the whole list, so all transactions count, as with a
    window of their number. *)
Theorem discipline_score_zero_window_takes_all discipline_rules transactions :
  calculate_discipline_score discipline_rules 0 transactions
  = calculate_discipline_score discipline_rules (Z.of_nat (length transactions)) transactions.
Proof.
  destruct transactions as [|t ts]; [done|].
  unfold calculate_discipline_score, last_slice.
  rewrite (proj2 (Z.ltb_lt 0 (Z.of_nat (length (t :: ts))))) by (simpl; lia).
  by rewrite Nat2Z.id, Nat.sub_diag.
Qed.

(** X28. With a negative window the slice starts after the first
    [-window] transactions; when there are no more than that, no score is
    left to average and the division by the number of scores raises
    [ZeroDivisionError]. *)
Theorem discipline_score_negative_window_raises discipline_rules window transactions :
  window < 0 →
  transactions ≠ [] →
  Z.of_nat (length transactions) ≤ - window →
  calculate_discipline_score discipline_rules window transactions = ZeroDivisionError.
Proof.
  intros Hw Hne Hlen. destruct transactions as [|t ts]; [done|].
  unfold calculate_discipline_score, last_slice.
  rewrite (proj2 (Z.ltb_ge 0 window)) by lia.
  by rewrite drop_ge by lia.
Qed.

End Ratings_facts.

(** Witness of X25: one late return with a bonus of -30 and one
    transaction without remarks. *)
Lemma discipline_score_in_range_witness :
  ∃ score,
    Ratings.calculate_discipline_score
      {["return_timing" := ({["late_over_24h" := (-30)%Z]} : gmap string Z)]} 5
      [[("return_timing", Json.Str "late_over_24h")]; []]
    = Ratings.Returns score
    ∧ (0 ≤ score ≤ 100)%Z.
Proof.
  destruct (discipline_score_in_range
              {["return_timing" := ({["late_over_24h" := (-30)%Z]} : gmap string Z)]} 5
              [[("return_timing", Json.Str "late_over_24h")]; []])
    as (score & Hscore & Hrange & _).
  - lia.
  - repeat constructor.
  - exists score. split; [exact Hscore|exact Hrange].
Defined.

(** Witness of X26: with a window of 1 the late return before the last
    transaction does not count. *)
Lemma discipline_score_uses_last_window_witness :
  Ratings.calculate_discipline_score
    {["return_timing" := ({["late_over_24h" := (-30)%Z]} : gmap string Z)]} 1
    ([[("return_timing", Json.Str "late_over_24h")]] ++ [[]])%list
  = Ratings.calculate_discipline_score
      {["return_timing" := ({["late_over_24h" := (-30)%Z]} : gmap string Z)]} 1 [[]].
Proof.
  apply (discipline_score_uses_last_window
           {["return_timing" := ({["late_over_24h" := (-30)%Z]} : gmap string Z)]} 1
           [[("return_timing", Json.Str "late_over_24h")]] [[]]).
  - lia.
  - reflexivity.
Defined.

(** Witness of X28: one transaction and a window of -2. *)
Lemma discipline_score_negative_window_raises_witness :
  Ratings.calculate_discipline_score ∅ (-2) [[]] = Ratings.ZeroDivisionError.
Proof.
  apply (discipline_score_negative_window_raises ∅ (-2) [[]]).
  - lia.
  - discriminate.
  - simpl. lia.
Defined.

(** ** Instances for the wrapper of the cache *)

(** Witness of X29: the result for message 7, stored at time 1, is live
    until time 301; a call tests the cache at time 300 and reads it at
    time 301. *)
Lemma expired_between_test_and_read_raises_witness :
  let self := (MessageSample.wrapper 0 1 7%nat MessageSample.decorated).2 in
  (AsyncCached.wrapper_at MessageSample.str_args MessageSample.hash
     "_process_message_async" MessageSample.func 300 301 302 7%nat self).1 = None
  ∧ AsyncCached.runs
      (AsyncCached.wrapper_at MessageSample.str_args MessageSample.hash
         "_process_message_async" MessageSample.func 300 301 302 7%nat self).2
    = [7%nat].
Proof.
  intros self.
  destruct (expired_between_test_and_read_raises MessageSample.str_args MessageSample.hash
              "_process_message_async" MessageSample.func self 7%nat tt 301 0 300 301 302)
    as (Hnone & Hruns & _).
  - exists [], []. split; [reflexivity|].
    split; [apply not_elem_of_nil|]. split; [apply not_elem_of_nil|]. simpl. lia.
  - lia.
  - lia.
  - split; [exact Hnone|exact Hruns].
Defined.

(** Witness of X30: three messages, on the second of which the wrapper
    raises. *)
Lemma wrapper_failure_is_counted_witness :
  let cached := λ y : nat, if (y =? 2)%nat then EventLoop.Expired else EventLoop.Miss in
  let process := EventLoop.processing (λ _ _, AsyncBotHandler.Returned) cached in
  let self :=
    AsyncBotHandler.set_queue AsyncBotHandler.Message (Queue.Mk 1000 [1; 2; 3]%nat 3)
      (AsyncBotHandler.init 0%Q) in
  ∃ self',
    AsyncBotHandler._message_worker process 4 self = AsyncBotHandler.Idle self'
    ∧ AsyncBotHandler.errors (AsyncBotHandler.stats self') = 1%Z
    ∧ AsyncBotHandler.messages_processed (AsyncBotHandler.stats self') = 2%Z.
Proof.
  intros cached process self.
  destruct (wrapper_failure_is_counted (λ _ _, AsyncBotHandler.Returned) cached self
              [1%nat] [3%nat] 2%nat 4)
    as (self' & Hrun & _ & _ & Herr & _ & Hm).
  - reflexivity.
  - simpl. lia.
  - reflexivity.
  - repeat constructor; discriminate.
  - simpl. lia.
  - exists self'. split; [exact Hrun|]. split; [exact Herr|exact Hm].
Defined.
